(** * FloWork front end: the workflow builder, the execution controller
    and the list view, embedded as pure functions and small effectful
    programs, with the properties their specification states.

  Sources embedded here:
  - [frontend/components/WorkflowBuilder.tsx]  ([addNode], [updateNode],
    [removeNode], [handleSave]);
  - [frontend/components/WorkflowExecutor.tsx] ([handleExecute] and the
    result rendering);
  - the list-view component ([loadWorkflows], [handleDelete]);
  - [frontend/app/page.tsx] (the view switch of [HomePage]);
  - the LLM status card ([loadStatus], [handleInitialize]). *)

From Stdlib Require Import ZArith Ascii DecimalString.
From stdpp Require Import gmap strings list fin_maps.

Set Default Proof Using "Type".
#[local] Set Warnings "-register-all".
#[local] Open Scope string_scope.
#[local] Open Scope list_scope.
#[local] Open Scope nat_scope.

(** ** JavaScript strings and values *)

Module Js.

(** A string is a sequence of character codes below 256. In that range
    the characters [String.prototype.trim] strips (WhiteSpace and
    LineTerminator) are TAB, LF, VT, FF, CR, SPACE and NBSP. *)
Definition is_whitespace (c : ascii) : bool :=
  let n := nat_of_ascii c in
  (n =? 9) || (n =? 10) || (n =? 11) || (n =? 12)
  || (n =? 13) || (n =? 32) || (n =? 160).

Fixpoint trim_start (s : string) : string :=
  match s with
  | EmptyString => EmptyString
  | String c s' => if is_whitespace c then trim_start s' else s
  end.

Fixpoint trim_end (s : string) : string :=
  match s with
  | EmptyString => EmptyString
  | String c s' =>
      match trim_end s' with
      | EmptyString => if is_whitespace c then EmptyString
                       else String c EmptyString
      | t => String c t
      end
  end.

(** [s.trim()] *)
Definition trim (s : string) : string := trim_end (trim_start s).

Fixpoint whitespace_only (s : string) : bool :=
  match s with
  | EmptyString => true
  | String c s' => is_whitespace c && whitespace_only s'
  end.

(** Truthiness of a string: every string but the empty one. *)
Definition truthy_string (s : string) : bool :=
  match s with EmptyString => false | String _ _ => true end.

(** Truthiness of an optional string member ([undefined] and [null]
    are both read as [None]). *)
Definition truthy (o : option string) : bool :=
  match o with Some s => truthy_string s | None => false end.

(** [a || b] on optional strings. *)
Definition or_else (a b : option string) : option string :=
  if truthy a then a else b.

(** [a || "literal"]: the right operand is a string literal, so the
    result is a string. *)
Definition or_literal (a : option string) (lit : string) : string :=
  match a with
  | Some s => if truthy_string s then s else lit
  | None => lit
  end.

(** [`${n}`] for a non-negative integer. *)
Definition decimal (n : nat) : string :=
  NilEmpty.string_of_uint (Nat.to_uint n).

(** Values a node member can hold ([value: any] in [updateNode]).
    Numbers are the integers. Objects are finite maps from property
    names to values. *)
Inductive val : Type :=
| VUndefined
| VNull
| VBool (b : bool)
| VNum (n : Z)
| VStr (s : string)
| VArr (xs : list val)
| VObj (ps : gmap string val).

(** *** Arrays of node objects *)

(** A node object is a bag of properties; a well-formed [Node] has
    [name], [prompt] and [routing_rules]. *)
Abbreviation Node := (gmap string val).

(** What one position of the [nodes] array can hold: a node object, or,
    after an assignment past the end, an empty slot (and [undefined]
    once such an array has been copied by spreading). *)
Inductive Elem : Type :=
| Hole
| Undef
| Obj (o : Node).

Definition is_hole (e : Elem) : bool :=
  match e with Hole => true | _ => false end.

Definition has_hole (nodes : list Elem) : bool := existsb is_hole nodes.

Definition is_node (e : Elem) : bool :=
  match e with Obj _ => true | _ => false end.

(** A node sequence: every position holds a node object. *)
Definition node_sequence (nodes : list Elem) : bool := forallb is_node nodes.

(** [[...nodes]]: iteration reads an empty slot as [undefined]. *)
Definition spread_array (nodes : list Elem) : list Elem :=
  (fun e => match e with Hole => Undef | _ => e end) <$> nodes.

(** [{...e}]: the own properties of [e]; [undefined] contributes none. *)
Definition spread_object (e : Elem) : Node :=
  match e with Obj o => o | _ => ∅ end.

(** [arr[index]]: [undefined] for an empty slot and out of range. *)
Definition array_get (arr : list Elem) (index : nat) : Elem :=
  match arr !! index with
  | Some Hole | None => Undef
  | Some e => e
  end.

(** [arr[index] = x]: in range the slot is replaced; past the end the
    array is extended, the skipped positions being empty slots. *)
Definition array_set (arr : list Elem) (index : nat) (x : Elem) : list Elem :=
  if index <? length arr then <[index := x]> arr
  else arr ++ replicate (index - length arr) Hole ++ [x].

(** [arr.filter((_, i) => p(i))]: empty slots are not visited and are
    absent from the result. *)
Fixpoint filter_index (p : nat -> bool) (i : nat) (arr : list Elem) : list Elem :=
  match arr with
  | [] => []
  | e :: arr' =>
      if is_hole e then filter_index p (S i) arr'
      else if p i then e :: filter_index p (S i) arr'
      else filter_index p (S i) arr'
  end.

End Js.

Import Js.

(** ** The REST client's data shapes *)

Module Api.

(** The module [lib/api] (the [workflowAPI] client and the types [Node]
    and [Workflow]) is not among the sources, and the components hold
    the values it produces as [any]. The shapes below give those values
    the types of the specification's data model, restricted to the
    members the components read; a member that may be missing ([undefined]
    or [null]) is an [option]. *)

(** Modelled from the spec: the body of an error response,
    [err.response.data], with its human-readable [error] message. *)
Record ErrorBody := { error : option string }.

(** Modelled from the spec: [err.response]. *)
Record ErrorResponse := { data : option ErrorBody }.

(** Modelled from the spec: the value a failed request rejects with
    ([err: any] in the handlers). *)
Record ApiError := {
  response : option ErrorResponse;
  message : option string }.

(** [interface WorkflowMetadata] of the list view. *)
Record WorkflowMetadata := {
  id : string;
  name : string;
  description : option string;
  created_at : string;
  updated_at : string;
  node_count : Z }.

(** Modelled from the spec: the type [Workflow] of [lib/api], as the
    builder constructs it: [{ name, description, nodes }]. *)
Record Workflow := {
  wf_name : string;
  wf_description : string;
  wf_nodes : list Elem }.

(** Modelled from the spec: [final_state] of an execution result. *)
Record FinalState := { last_response_content : option string }.

(** Modelled from the spec: [summary] of an execution result. *)
Record Summary := {
  nodes_executed : option Z;
  has_error : option bool }.

(** Modelled from the spec: the ExecutionResult, which is what [execute]
    resolves with and what [setResult] stores ([useState<any>]). The
    error record [{ error }] and the success record are one shape with
    every member optional, as the rendering reads it. *)
Record ExecutionResult := {
  result_error : option string;
  final_state : option FinalState;
  execution_log : option (list string);
  summary : option Summary }.

(** The calls on [workflowAPI] the handlers make. *)
Inductive Request : Type :=
| ReqList
| ReqCreate (w : Workflow)
| ReqUpdate (wid : string) (w : Workflow)
| ReqDelete (wid : string)
| ReqExecute (wid : string) (input : string).

(** What the world answers while one handler runs: the user's reply to
    [confirm] and the outcome of each call on [workflowAPI] ([inl]: the
    promise rejects, [inr]: it resolves). The client itself is not among
    the sources; its answers are parameters of every run. *)
Record Env := {
  confirm_answer : string -> bool;
  api_list : ApiError + list WorkflowMetadata;
  api_create : Workflow -> ApiError + unit;
  api_update : string -> Workflow -> ApiError + unit;
  api_delete : string -> ApiError + unit;
  api_execute : string -> string -> ApiError + ExecutionResult }.

End Api.

Import Api.

(** ** Event handlers as programs with state, exceptions and a trace *)

Module Handler.

(** What a handler does to the outside. *)
Inductive Event : Type :=
| EvAlert (msg : string)
| EvConfirm (msg : string) (answer : bool)
| EvRequest (r : Request)
| EvOnSaved
| EvConsoleError (msg : string).

Definition is_request (e : Event) : bool :=
  match e with EvRequest _ => true | _ => false end.

(** How a block ends: normally, or by a thrown rejection. *)
Inductive Completion (A : Type) : Type :=
| Normal (a : A)
| Throw (err : ApiError).
Arguments Normal {A} a.
Arguments Throw {A} err.

(** A handler over component state [S]: it runs in an environment, from
    a state, and yields a completion, the final state and the trace of
    its events, each paired with the state the component holds when the
    event happens (for a request: the state held while it is in flight). *)
Definition M (S A : Type) : Type :=
  Env -> S -> Completion A * S * list (Event * S).

Section Ops.
Context {S : Type}.

Definition ret {A} (a : A) : M S A := fun _ s => (Normal a, s, []).

Definition bind {A B} (m : M S A) (k : A -> M S B) : M S B :=
  fun env s =>
    match m env s with
    | (Normal a, s1, t1) =>
        match k a env s1 with
        | (c, s2, t2) => (c, s2, t1 ++ t2)
        end
    | (Throw e, s1, t1) => (Throw e, s1, t1)
    end.

(** A [useState] setter. *)
Definition modify (f : S -> S) : M S unit := fun _ s => (Normal tt, f s, []).

Definition emit (e : Event) : M S unit := fun _ s => (Normal tt, s, [(e, s)]).

(** [alert(msg)] *)
Definition alert (msg : string) : M S unit := emit (EvAlert msg).

(** [confirm(msg)] *)
Definition confirm (msg : string) : M S bool :=
  fun env s =>
    let b := confirm_answer env msg in (Normal b, s, [(EvConfirm msg b, s)]).

(** [await workflowAPI.<call>]: the request leaves, then the promise
    resolves with a value or rejects, which throws. *)
Definition await {A} (r : Request) (outcome : Env -> ApiError + A) : M S A :=
  fun env s =>
    (match outcome env with inr a => Normal a | inl e => Throw e end,
     s, [(EvRequest r, s)]).

(** [try { body } catch (err) { handler }] *)
Definition try_catch {A} (body : M S A) (handler : ApiError -> M S A) : M S A :=
  fun env s =>
    match body env s with
    | (Normal a, s1, t1) => (Normal a, s1, t1)
    | (Throw e, s1, t1) =>
        match handler e env s1 with
        | (c, s2, t2) => (c, s2, t1 ++ t2)
        end
    end.

(** [try { body } finally { fin }] *)
Definition try_finally {A} (body : M S A) (fin : M S unit) : M S A :=
  fun env s =>
    match body env s with
    | (c, s1, t1) =>
        match fin env s1 with
        | (Normal _, s2, t2) => (c, s2, t1 ++ t2)
        | (Throw e, s2, t2) => (Throw e, s2, t1 ++ t2)
        end
    end.

End Ops.

#[global] Instance M_ret {S} : MRet (M S) := fun A => @ret S A.
#[global] Instance M_bind {S} : MBind (M S) := fun A B k m => @bind S A B m k.

(** The state a handler leaves, and the trace it produces. *)
Definition final_state_of {S A} (r : Completion A * S * list (Event * S)) : S :=
  snd (fst r).
Definition trace_of {S A} (r : Completion A * S * list (Event * S))
  : list (Event * S) := snd r.
Definition events_of {S A} (r : Completion A * S * list (Event * S))
  : list Event := fst <$> snd r.

End Handler.

Import Handler.

(** ** The workflow builder (WorkflowBuilder.tsx) *)

Module Builder.

(** [addNode], [updateNode] and [removeNode] read the [nodes] cell and
    call [setNodes] once. Each is given as the function from the content
    of the cell it reads to the content it sets; successive calls, one
    per render, compose these functions. *)

Definition routing_rules_default : val :=
  VObj (<["default_target" := VStr "END"]>
        (<["conditional_targets" := VArr []]> ∅)).

(** The object literal built by [addNode] when [count] nodes exist. *)
Definition newNode (count : nat) : Node :=
  <["name" := VStr ("Node " +:+ decimal (count + 1))]>
  (<["prompt" := VStr ""]>
  (<["routing_rules" := routing_rules_default]> ∅)).

(** [setNodes([...nodes, newNode])] *)
Definition addNode (nodes : list Elem) : list Elem :=
  spread_array nodes ++ [Obj (newNode (length nodes))].

(** [updated = [...nodes];
     updated[index] = { ...updated[index], [field]: value };
     setNodes(updated)] *)
Definition updateNode (index : nat) (field : string) (value : val)
    (nodes : list Elem) : list Elem :=
  let updated := spread_array nodes in
  array_set updated index
    (Obj (<[field := value]> (spread_object (array_get updated index)))).

(** [setNodes(nodes.filter((_, i) => i !== index))] *)
Definition removeNode (index : nat) (nodes : list Elem) : list Elem :=
  filter_index (fun i => negb (i =? index)) 0 nodes.

(** The component's state: four [useState] cells. *)
Record State := {
  name : string;
  description : string;
  nodes : list Elem;
  loading : bool }.

Definition setLoading (b : bool) : M State unit :=
  modify (fun s => {| name := name s; description := description s;
                      nodes := nodes s; loading := b |}).

Definition setNodes (ns : list Elem) : M State unit :=
  modify (fun s => {| name := name s; description := description s;
                      nodes := ns; loading := loading s |}).

(** A node operation as the handler it is in the component. *)
Definition on_nodes (op : list Elem -> list Elem) : M State unit :=
  fun env st => setNodes (op (nodes st)) env st.

(** [handleSave], for the prop [workflowId : string | null]. *)
Definition handleSave (workflowId : option string) : M State unit :=
  fun env st =>
    (if negb (truthy_string (trim (name st))) then
       alert "Workflow name is required"
     else
       try_finally
         (try_catch
            (setLoading true ;;
             let workflow := {| wf_name := name st;
                                wf_description := description st;
                                wf_nodes := nodes st |} in
             (if truthy workflowId then
                let wid := default "" workflowId in
                await (ReqUpdate wid workflow) (fun e => api_update e wid workflow)
              else
                await (ReqCreate workflow) (fun e => api_create e workflow)) ;;
             emit EvOnSaved)
            (fun err => alert (or_literal (message err) "Failed to save workflow")))
         (setLoading false)) env st.

End Builder.

Import Builder.

(** ** The execution controller (WorkflowExecutor.tsx) *)

Module Executor.

(** The component's state: five [useState] cells. [result] is [null]
    ([None]) until a run stores something. *)
Record State := {
  workflows : list WorkflowMetadata;
  selectedId : string;
  input : string;
  executing : bool;
  result : option ExecutionResult }.

Definition setWorkflows (w : list WorkflowMetadata) : M State unit :=
  modify (fun s => {| workflows := w; selectedId := selectedId s;
                      input := input s; executing := executing s;
                      result := result s |}).

Definition setSelectedId (v : string) : M State unit :=
  modify (fun s => {| workflows := workflows s; selectedId := v;
                      input := input s; executing := executing s;
                      result := result s |}).

Definition setInput (v : string) : M State unit :=
  modify (fun s => {| workflows := workflows s; selectedId := selectedId s;
                      input := v; executing := executing s;
                      result := result s |}).

Definition setExecuting (b : bool) : M State unit :=
  modify (fun s => {| workflows := workflows s; selectedId := selectedId s;
                      input := input s; executing := b;
                      result := result s |}).

Definition setResult (r : option ExecutionResult) : M State unit :=
  modify (fun s => {| workflows := workflows s; selectedId := selectedId s;
                      input := input s; executing := executing s;
                      result := r |}).

(** [loadWorkflows]: the preload of the dropdown. *)
Definition loadWorkflows : M State unit :=
  try_catch
    (data ← await ReqList api_list; setWorkflows data)
    (fun err => emit (EvConsoleError "Failed to load workflows:")).

(** The effect on the prop [workflowId]: [if (workflowId) setSelectedId(workflowId)]. *)
Definition onWorkflowId (workflowId : option string) : M State unit :=
  if truthy workflowId then setSelectedId (default "" workflowId) else mret tt.

(** [err.response?.data?.error] *)
Definition server_error (err : ApiError) : option string :=
  r ← response err; d ← data r; error d.

(** [err.response?.data?.error || err.message || "Execution failed"] *)
Definition failure_message (err : ApiError) : string :=
  or_literal (or_else (server_error err) (message err)) "Execution failed".

(** The object literal [{ error: msg }]. *)
Definition error_result (msg : string) : ExecutionResult :=
  {| result_error := Some msg; final_state := None;
     execution_log := None; summary := None |}.

(** The guard of [handleExecute]: [!selectedId || !input.trim()]. *)
Definition rejected (st : State) : bool :=
  negb (truthy_string (selectedId st)) || negb (truthy_string (trim (input st))).

Definition handleExecute : M State unit :=
  fun env st =>
    (if rejected st then
       alert "Please select a workflow and provide input"
     else
       try_finally
         (try_catch
            (setExecuting true ;;
             setResult None ;;
             data ← await (ReqExecute (selectedId st) (input st))
                          (fun e => api_execute e (selectedId st) (input st));
             setResult (Some data))
            (fun err => setResult (Some (error_result (failure_message err)))))
         (setExecuting false)) env st.

(** What the user or React can make the component do. *)
Inductive Action : Type :=
| ActMount
| ActWorkflowId (workflowId : option string)
| ActSelect (v : string)
| ActInput (v : string)
| ActExecute.

Definition run (a : Action) : M State unit :=
  match a with
  | ActMount => loadWorkflows
  | ActWorkflowId w => onWorkflowId w
  | ActSelect v => setSelectedId v
  | ActInput v => setInput v
  | ActExecute => handleExecute
  end.

(** *** Rendering of the stored result *)

Inductive Panel : Type :=
| ErrorPanel (msg : string)
| FinalOutput (text : string)
| ExecutionLog (lines : list string)
| SummaryPanel (nodes_executed : option Z) (status : string).

Definition is_success_panel (p : Panel) : bool :=
  match p with ErrorPanel _ => false | _ => true end.

(** [result.execution_log && result.execution_log.length > 0 && (...)] *)
Definition render_log (log : option (list string)) : list Panel :=
  match log with
  | Some lines => if 0 <? length lines then [ExecutionLog lines] else []
  | None => []
  end.

(** [result.summary && (...)] *)
Definition render_summary (s : option Summary) : list Panel :=
  match s with
  | Some s =>
      [SummaryPanel (nodes_executed s)
         (if default false (has_error s) then "Failed" else "Success")]
  | None => []
  end.

(** The "Results" card: [{result && (... result.error ? ... : ...)}]. *)
Definition render_result (result : option ExecutionResult) : list Panel :=
  match result with
  | None => []
  | Some r =>
      if truthy (result_error r) then
        [ErrorPanel (default "" (result_error r))]
      else
        [FinalOutput
           (or_literal (fs ← final_state r; last_response_content fs) "No output")]
        ++ render_log (execution_log r)
        ++ render_summary (summary r)
  end.

End Executor.

(** ** The list view *)

Module ListView.

(** The component's state: three [useState] cells. *)
Record State := {
  workflows : list WorkflowMetadata;
  loading : bool;
  error : option string }.

Definition setWorkflows (w : list WorkflowMetadata) : M State unit :=
  modify (fun s => {| workflows := w; loading := loading s; error := error s |}).

Definition setLoading (b : bool) : M State unit :=
  modify (fun s => {| workflows := workflows s; loading := b; error := error s |}).

Definition setError (e : option string) : M State unit :=
  modify (fun s => {| workflows := workflows s; loading := loading s; error := e |}).

Definition loadWorkflows : M State unit :=
  try_finally
    (try_catch
       (setLoading true ;;
        data ← await ReqList api_list;
        setWorkflows data ;;
        setError None)
       (fun err => setError (Some (or_literal (message err) "Failed to load workflows"))))
    (setLoading false).

Definition handleDelete (wid : string) : M State unit :=
  ok ← confirm "Are you sure you want to delete this workflow?";
  if negb ok then mret tt
  else
    try_catch
      (await (ReqDelete wid) (fun e => api_delete e wid) ;;
       loadWorkflows)
      (fun err => alert (or_literal (message err) "Failed to delete workflow")).

(** What the component shows for a state. *)
Inductive View : Type :=
| Spinner
| ErrorBox (msg : string)
| Listing (ws : list WorkflowMetadata).

Definition view (st : State) : View :=
  if loading st then Spinner
  else if truthy (error st) then ErrorBox (default "" (error st))
  else Listing (workflows st).

End ListView.

(** * Vocabulary of the statements *)

(** The node [addNode] creates under the name [s]: empty prompt, routing
    to ["END"], no conditional targets, and nothing else. *)
Definition fresh_node_named (s : string) (o : Node) : Prop :=
  o !! "name" = Some (VStr s) ∧
  o !! "prompt" = Some (VStr "") ∧
  (∃ rr : gmap string val,
      o !! "routing_rules" = Some (VObj rr) ∧
      rr !! "default_target" = Some (VStr "END") ∧
      rr !! "conditional_targets" = Some (VArr [])) ∧
  dom o = ({["name"; "prompt"; "routing_rules"]} : gset string).

Section ExecutorVocabulary.
Import Executor.
Implicit Types (st : State).

(** The state held while the execute request is in flight. *)
Definition in_flight st : State :=
  {| workflows := workflows st; selectedId := selectedId st;
     input := input st; executing := true; result := None |}.

(** The state held once the run has stored [r]. *)
Definition settled st (r : ExecutionResult) : State :=
  {| workflows := workflows st; selectedId := selectedId st;
     input := input st; executing := false; result := Some r |}.

Definition execute_request st : Request :=
  ReqExecute (selectedId st) (input st).

End ExecutorVocabulary.

Section ListViewVocabulary.
Import ListView.

Definition delete_prompt : string :=
  "Are you sure you want to delete this workflow?".

(** The list-view state held while the reload is in flight. *)
Definition reloading (st : State) : State :=
  {| workflows := workflows st; loading := true; error := error st |}.

(** The list-view state once the reload has answered with [ws]. *)
Definition reloaded (ws : list WorkflowMetadata) : State :=
  {| workflows := ws; loading := false; error := None |}.

(** The list-view state once the reload has failed with [err]. *)
Definition reload_failed (st : State) (err : ApiError) : State :=
  {| workflows := workflows st; loading := false;
     error := Some (or_literal (message err) "Failed to load workflows") |}.

End ListViewVocabulary.

(** * Concrete inputs used by the examples *)

Module Sample.

Definition not_found : ApiError :=
  {| response := Some {| data := Some {| error := Some "Workflow not found" |} |};
     message := None |}.

Definition empty_body : ApiError :=
  {| response := Some {| data := Some {| error := Some "" |} |};
     message := Some "Request failed with status code 500" |}.

Definition network_down : ApiError :=
  {| response := None; message := Some "Network Error" |}.

Definition silent : ApiError := {| response := None; message := None |}.

(** A success response with no output, an empty log and a summary. *)
Definition three_nodes : ExecutionResult :=
  {| result_error := None;
     final_state := Some {| last_response_content := None |};
     execution_log := Some [];
     summary := Some {| nodes_executed := Some 3%Z; has_error := Some false |} |}.

(** A response whose [error] member is the empty string. *)
Definition empty_error : ExecutionResult :=
  {| result_error := Some ""; final_state := None;
     execution_log := None; summary := None |}.

(** A response whose final output is the empty string. *)
Definition empty_output : ExecutionResult :=
  {| result_error := None;
     final_state := Some {| last_response_content := Some "" |};
     execution_log := None; summary := None |}.

Definition greeting : ExecutionResult :=
  {| result_error := None;
     final_state := Some {| last_response_content := Some "Hello!" |};
     execution_log := Some ["start"; "node A"; "end"];
     summary := Some {| nodes_executed := Some 1%Z; has_error := Some true |} |}.

Definition listed (wid : string) : WorkflowMetadata :=
  {| Api.id := wid; Api.name := "Flow " +:+ wid; Api.description := None;
     created_at := "2024-01-01T00:00:00Z"; updated_at := "2024-01-02T00:00:00Z";
     node_count := 2%Z |}.

(** A world in which the user confirms, [execute] ends as given, [delete]
    ends as given and [list] answers with [ws]. *)
Definition world (exec : ApiError + ExecutionResult) (del : ApiError + unit)
    (ws : list WorkflowMetadata) : Env :=
  {| confirm_answer := fun _ => true;
     api_list := inr ws;
     api_create := fun _ => inr tt;
     api_update := fun _ _ => inr tt;
     api_delete := fun _ => del;
     api_execute := fun _ _ => exec |}.

(** The executor with a workflow selected, an input typed and [held] shown. *)
Definition ready (held : option ExecutionResult) : Executor.State :=
  {| Executor.workflows := []; Executor.selectedId := "wf-1";
     Executor.input := "hello"; Executor.executing := false;
     Executor.result := held |}.

(** The executor with only blanks typed as input. *)
Definition blank_input : Executor.State :=
  {| Executor.workflows := []; Executor.selectedId := "wf-1";
     Executor.input := "  "; Executor.executing := false;
     Executor.result := None |}.

(** A draft without a name. *)
Definition unnamed_draft : Builder.State :=
  {| Builder.name := " "; Builder.description := "d";
     Builder.nodes := [Obj (newNode 0)]; Builder.loading := false |}.

(** The list view showing two workflows. *)
Definition two_listed : ListView.State :=
  {| ListView.workflows := [listed "a"; listed "b"];
     ListView.loading := false; ListView.error := None |}.

End Sample.

(** * The rest of the components *)

(** ** Handlers over any collaborator *)

Module Proc.

(** The programs of [Handler], over any world [W] of answers and any
    type [E] of events: [Handler.M S A] is [P Env Handler.Event S A]. *)
Definition P (W E S A : Type) : Type :=
  W -> S -> Completion A * S * list (E * S).

Section Ops.
Context {W E S : Type}.

Definition ret {A} (a : A) : P W E S A := fun _ s => (Normal a, s, []).

Definition bind {A B} (m : P W E S A) (k : A -> P W E S B) : P W E S B :=
  fun w s =>
    match m w s with
    | (Normal a, s1, t1) =>
        match k a w s1 with
        | (c, s2, t2) => (c, s2, t1 ++ t2)
        end
    | (Throw e, s1, t1) => (Throw e, s1, t1)
    end.

(** A [useState] setter, also in its functional form [set(prev => f(prev))]. *)
Definition modify (f : S -> S) : P W E S unit := fun _ s => (Normal tt, f s, []).

(** [await <call>]: the event [e] records the call; the promise resolves
    or rejects as the world says. *)
Definition await {A} (e : E) (outcome : W -> ApiError + A) : P W E S A :=
  fun w s =>
    (match outcome w with inr a => Normal a | inl err => Throw err end,
     s, [(e, s)]).

(** [try { body } catch (err) { handler }] *)
Definition try_catch {A} (body : P W E S A) (handler : ApiError -> P W E S A)
  : P W E S A :=
  fun w s =>
    match body w s with
    | (Normal a, s1, t1) => (Normal a, s1, t1)
    | (Throw e, s1, t1) =>
        match handler e w s1 with
        | (c, s2, t2) => (c, s2, t1 ++ t2)
        end
    end.

(** [try { body } finally { fin }] *)
Definition try_finally {A} (body : P W E S A) (fin : P W E S unit) : P W E S A :=
  fun w s =>
    match body w s with
    | (c, s1, t1) =>
        match fin w s1 with
        | (Normal _, s2, t2) => (c, s2, t1 ++ t2)
        | (Throw e, s2, t2) => (Throw e, s2, t1 ++ t2)
        end
    end.

(** A handler of [Handler] run inside a larger world: its answers come
    from the part [env_of] of the world and its events are injected by
    [ev_of]. *)
Definition lift {A} (env_of : W -> Env) (ev_of : Event -> E) (m : M S A)
  : P W E S A :=
  fun w s =>
    match m (env_of w) s with
    | (c, s1, t1) => (c, s1, (fun p => (ev_of (fst p), snd p)) <$> t1)
    end.

End Ops.

#[global] Instance P_ret {W E S} : MRet (P W E S) := fun A => @ret W E S A.
#[global] Instance P_bind {W E S} : MBind (P W E S) :=
  fun A B k m => @bind W E S A B m k.

(** The state a program leaves, its trace and its events. *)
Definition final {E S A} (r : Completion A * S * list (E * S)) : S := snd (fst r).

Definition steps {E S A} (r : Completion A * S * list (E * S)) : list (E * S) :=
  snd r.

Definition events {E S A} (r : Completion A * S * list (E * S)) : list E :=
  fst <$> snd r.

End Proc.

(** ** The rest of the builder (WorkflowBuilder.tsx) *)

Module Draft.
Import Proc.

(** Modelled from the spec: the [Workflow] that [workflowAPI.get]
    resolves with, as [loadWorkflow] reads it. *)
Record WorkflowDoc := {
  doc_name : string;
  doc_description : option string;
  doc_nodes : list Elem }.

(** The world of the whole component: the answers of [Env] and the
    answer of [workflowAPI.get]. *)
Record World := {
  base : Env;
  api_get : string -> ApiError + WorkflowDoc }.

Inductive DraftEvent : Type :=
| Base (e : Event)
| EvGet (wid : string).

(** A handler of [Builder] inside this world. *)
Definition old {A} (m : M Builder.State A) : P World DraftEvent Builder.State A :=
  lift base Base m.

Definition setName (v : string) : P World DraftEvent Builder.State unit :=
  modify (fun s => {| name := v; description := description s;
                      nodes := nodes s; loading := loading s |}).

Definition setDescription (v : string) : P World DraftEvent Builder.State unit :=
  modify (fun s => {| name := name s; description := v;
                      nodes := nodes s; loading := loading s |}).

(** [loadWorkflow], for the prop [workflowId]. *)
Definition loadWorkflow (workflowId : option string)
  : P World DraftEvent Builder.State unit :=
  if negb (truthy workflowId) then mret tt
  else
    let wid := default "" workflowId in
    try_finally
      (try_catch
         (old (setLoading true) ;;
          workflow ← await (EvGet wid) (fun w => api_get w wid);
          setName (doc_name workflow) ;;
          setDescription (or_literal (doc_description workflow) "") ;;
          old (setNodes (doc_nodes workflow)))
         (fun err => old (alert (or_literal (message err) "Failed to load workflow"))))
      (old (setLoading false)).

(** The effect on [workflowId]: load, or reset to an empty draft. *)
Definition onWorkflowId (workflowId : option string)
  : P World DraftEvent Builder.State unit :=
  if truthy workflowId then loadWorkflow workflowId
  else setName "" ;; setDescription "" ;; old (setNodes []).

(** The state of a freshly mounted builder. *)
Definition initial : Builder.State :=
  {| name := ""; description := ""; nodes := []; loading := false |}.

(** The heading: [workflowId ? "Edit Workflow" : "Create Workflow"]. *)
Definition title (workflowId : option string) : string :=
  if truthy workflowId then "Edit Workflow" else "Create Workflow".

(** The save button: [disabled={loading}] and its label. *)
Definition save_disabled (st : Builder.State) : bool := loading st.

Definition save_label (st : Builder.State) : string :=
  if loading st then "Saving..." else "Save Workflow".

(** The cancel button: [onClick={onSaved}]. *)
Definition handleCancel : M Builder.State unit := emit EvOnSaved.

(** *** The node cards *)

(** [o.k] on a node object: [undefined] when the member is missing. *)
Definition member (k : string) (o : Node) : val := default VUndefined (o !! k).

(** [rr.default_target] for the value [rr] of [node.routing_rules]:
    reading a member of [undefined] or [null] throws a TypeError ([None]);
    no other value than an object has that member. *)
Definition default_target_of (rr : val) : option val :=
  match rr with
  | VUndefined | VNull => None
  | VObj ps => Some (default VUndefined (ps !! "default_target"))
  | _ => Some VUndefined
  end.

(** One card of [nodes.map((node, index) => ...)]: the heading
    [Node {index + 1}] and the values of the three inputs. *)
Record NodeCard := {
  heading : string;
  name_value : val;
  prompt_value : val;
  default_target_value : val }.

(** [nodes.map(...)]: an empty slot is not visited; reading a member of
    an [undefined] element, or [default_target] of a missing
    [routing_rules], throws, and then nothing is rendered ([None]). *)
Fixpoint render_cards (index : nat) (arr : list Elem) : option (list NodeCard) :=
  match arr with
  | [] => Some []
  | Hole :: arr' => render_cards (S index) arr'
  | Undef :: _ => None
  | Obj o :: arr' =>
      match default_target_of (member "routing_rules" o) with
      | None => None
      | Some target =>
          match render_cards (S index) arr' with
          | None => None
          | Some cards =>
              Some ({| heading := "Node " +:+ decimal (index + 1);
                       name_value := member "name" o;
                       prompt_value := member "prompt" o;
                       default_target_value := target |} :: cards)
          end
      end
  end.

Inductive NodesPanel : Type :=
| NoNodesYet
| Cards (cards : list NodeCard).

(** [nodes.length === 0 ? <"No nodes yet"> : nodes.map(...)] *)
Definition render_nodes (nodes : list Elem) : option NodesPanel :=
  if length nodes =? 0 then Some NoNodesYet
  else Cards <$> render_cards 0 nodes.

(** [{ ...v }] for a member value [v]: the own enumerable properties.
    An array and a string spread their elements under the keys ["0"],
    ["1"], ...; the other primitives have none. *)
Definition spread_value (v : val) : gmap string val :=
  match v with
  | VObj ps => ps
  | VArr xs => list_to_map (imap (fun i x => (decimal i, x)) xs)
  | VStr s =>
      list_to_map
        (imap (fun i c => (decimal i, VStr (String c EmptyString)))
              (String.list_ascii_of_string s))
  | _ => ∅
  end.

(** The three inputs of the card of [node] at [index] (both captured by
    the closure of the render):
    [updateNode(index, "name", v)], [updateNode(index, "prompt", v)] and
    [updateNode(index, "routing_rules",
                { ...node.routing_rules, default_target: v })]. *)
Definition onName (index : nat) (v : string) (nodes : list Elem) : list Elem :=
  updateNode index "name" (VStr v) nodes.

Definition onPrompt (index : nat) (v : string) (nodes : list Elem) : list Elem :=
  updateNode index "prompt" (VStr v) nodes.

Definition onDefaultTarget (index : nat) (node : Node) (v : string)
    (nodes : list Elem) : list Elem :=
  updateNode index "routing_rules"
    (VObj (<["default_target" := VStr v]>
           (spread_value (member "routing_rules" node))))
    nodes.

(** One edit of the node list through the rendered controls: the "Add
    Node" buttons, and the "Remove" button and the inputs of the card of
    a node that is there. *)
Inductive ui_edit : list Elem -> list Elem -> Prop :=
| edit_add nodes :
    ui_edit nodes (addNode nodes)
| edit_remove nodes index node :
    nodes !! index = Some (Obj node) ->
    ui_edit nodes (removeNode index nodes)
| edit_name nodes index node v :
    nodes !! index = Some (Obj node) ->
    ui_edit nodes (onName index v nodes)
| edit_prompt nodes index node v :
    nodes !! index = Some (Obj node) ->
    ui_edit nodes (onPrompt index v nodes)
| edit_default_target nodes index node v :
    nodes !! index = Some (Obj node) ->
    ui_edit nodes (onDefaultTarget index node v nodes).

(** A node as the controls leave it: [name] and [prompt] are strings and
    [routing_rules] is an object whose [default_target] is a string. *)
Definition editable_node (o : Node) : Prop :=
  (∃ s, o !! "name" = Some (VStr s)) ∧
  (∃ s, o !! "prompt" = Some (VStr s)) ∧
  (∃ rr s, o !! "routing_rules" = Some (VObj rr) ∧
           rr !! "default_target" = Some (VStr s)).

Definition editable (nodes : list Elem) : Prop :=
  Forall (fun e => ∃ o, e = Obj o ∧ editable_node o) nodes.

End Draft.

(** *** Vocabulary for saving and loading *)

Section DraftVocabulary.
Import Draft.
Implicit Types (st : Builder.State).

(** The object [{ name, description, nodes }] built by [handleSave]. *)
Definition payload st : Workflow :=
  {| wf_name := name st; wf_description := description st;
     wf_nodes := nodes st |}.

(** The call [handleSave] makes: [update] for a non-empty [workflowId],
    [create] otherwise. *)
Definition save_request (workflowId : option string) st : Request :=
  if truthy workflowId then ReqUpdate (default "" workflowId) (payload st)
  else ReqCreate (payload st).

Definition save_outcome (env : Env) (workflowId : option string) st
  : ApiError + unit :=
  if truthy workflowId then api_update env (default "" workflowId) (payload st)
  else api_create env (payload st).

(** The draft with the busy flag raised, and lowered. *)
Definition busy st : Builder.State :=
  {| name := name st; description := description st;
     nodes := nodes st; loading := true |}.

Definition idle st : Builder.State :=
  {| name := name st; description := description st;
     nodes := nodes st; loading := false |}.

(** The draft [loadWorkflow] makes of a fetched workflow. *)
Definition loaded (doc : WorkflowDoc) : Builder.State :=
  {| name := doc_name doc;
     description := or_literal (doc_description doc) "";
     nodes := doc_nodes doc; loading := false |}.

(** The draft left by the effect when there is no workflow to load. *)
Definition cleared st : Builder.State :=
  {| name := ""; description := ""; nodes := []; loading := loading st |}.

(** A workflow as a server that returns what it was sent would answer. *)
Definition stored (w : Workflow) : WorkflowDoc :=
  {| doc_name := wf_name w; doc_description := Some (wf_description w);
     doc_nodes := wf_nodes w |}.

End DraftVocabulary.

(** ** The controls of the executor (WorkflowExecutor.tsx) *)

Module ExecutorView.
Import Executor.

(** The state of a freshly mounted executor. *)
Definition initial : State :=
  {| workflows := []; selectedId := ""; input := "";
     executing := false; result := None |}.

(** The button: [disabled={executing || !selectedId || !input.trim()}]. *)
Definition execute_disabled (st : State) : bool :=
  executing st || negb (truthy_string (selectedId st))
  || negb (truthy_string (trim (input st))).

(** Its label: [executing ? "Executing..." : "Execute"]. *)
Definition execute_label (st : State) : string :=
  if executing st then "Executing..." else "Execute".

(** The text a panel puts on the screen first. *)
Definition panel_text (p : Panel) : string :=
  match p with
  | ErrorPanel msg => msg
  | FinalOutput text => text
  | ExecutionLog _ => "Execution Log"
  | SummaryPanel _ status => status
  end.

End ExecutorView.

(** ** The list view, from mount *)

Module ListMount.
Import ListView.

(** The state of a freshly mounted list view: the spinner is on. *)
Definition initial : State :=
  {| workflows := []; loading := true; error := None |}.

End ListMount.

(** ** The page (app/page.tsx) *)

Module Home.

Inductive View : Type :=
| ViewList
| ViewBuilder
| ViewExecutor.

(** The page's state: two [useState] cells. *)
Record State := {
  view : View;
  selectedWorkflowId : option string }.

Definition initial : State :=
  {| view := ViewList; selectedWorkflowId := None |}.

(** The three navigation buttons. "Execute" sets the view only. *)
Definition navWorkflows (st : State) : State :=
  {| view := ViewList; selectedWorkflowId := None |}.

Definition navBuild (st : State) : State :=
  {| view := ViewBuilder; selectedWorkflowId := None |}.

Definition navExecute (st : State) : State :=
  {| view := ViewExecutor; selectedWorkflowId := selectedWorkflowId st |}.

(** The callbacks handed to the list view and to the builder. *)
Definition onEdit (wid : string) (st : State) : State :=
  {| view := ViewBuilder; selectedWorkflowId := Some wid |}.

Definition onExecute (wid : string) (st : State) : State :=
  {| view := ViewExecutor; selectedWorkflowId := Some wid |}.

Definition onSaved (st : State) : State :=
  {| view := ViewList; selectedWorkflowId := selectedWorkflowId st |}.


(** The component mounted in [<main>], with the [workflowId] it is given. *)
Inductive Mounted : Type :=
| MountList
| MountBuilder (workflowId : option string)
| MountExecutor (workflowId : option string).

Definition mounted (st : State) : Mounted :=
  match view st with
  | ViewList => MountList
  | ViewBuilder => MountBuilder (selectedWorkflowId st)
  | ViewExecutor => MountExecutor (selectedWorkflowId st)
  end.

End Home.

(** ** The LLM status card *)

Module LlmCard.
Import Proc.

(** Modelled from the spec: [LLMStatus] of [lib/api]. The handlers only
    store it; [temperature] is kept as the text of the number received. *)
Record LLMStatus := {
  api_key_configured : bool;
  llm_initialized : bool;
  model_name : string;
  temperature : string }.

(** Modelled from the spec: what [llmAPI.initialize] resolves with. *)
Record InitResponse := { init_message : option string }.

(** [interface RequestState] *)
Record RequestState := {
  loading : bool;
  error : option string;
  successMessage : option string }.

(** The component's state: two [useState] cells. *)
Record State := {
  status : option LLMStatus;
  requestState : RequestState }.

Definition initial : State :=
  {| status := None;
     requestState := {| loading := false; error := None;
                        successMessage := None |} |}.

(** The answers of [llmAPI] while one handler runs. *)
Record World := {
  api_getStatus : ApiError + LLMStatus;
  api_initialize : ApiError + InitResponse }.

Inductive CardEvent : Type :=
| EvGetStatus
| EvInitialize.

Definition setStatus (v : option LLMStatus) : P World CardEvent State unit :=
  modify (fun s => {| status := v; requestState := requestState s |}).

(** [setRequestState(prev => f(prev))]; a plain value is a constant [f]. *)
Definition setRequestState (f : RequestState -> RequestState)
  : P World CardEvent State unit :=
  modify (fun s => {| status := status s; requestState := f (requestState s) |}).

Definition loadStatus : P World CardEvent State unit :=
  try_catch
    (setRequestState (fun prev => {| loading := true; error := None;
                                     successMessage := successMessage prev |}) ;;
     data ← await EvGetStatus api_getStatus;
     setStatus (Some data) ;;
     setRequestState (fun prev => {| loading := false; error := error prev;
                                     successMessage := successMessage prev |}))
    (fun err =>
       setRequestState (fun _ =>
         {| loading := false;
            error := Some (or_literal (message err) "Failed to load LLM status");
            successMessage := None |})).

Definition handleInitialize : P World CardEvent State unit :=
  try_catch
    (setRequestState (fun _ => {| loading := true; error := None;
                                  successMessage := None |}) ;;
     response ← await EvInitialize api_initialize;
     setRequestState (fun _ =>
       {| loading := false; error := None;
          successMessage :=
            Some (or_literal (init_message response)
                             "LLM initialized successfully") |}) ;;
     loadStatus)
    (fun err =>
       setRequestState (fun _ =>
         {| loading := false;
            error := Some (or_literal (message err) "Failed to initialize LLM");
            successMessage := None |})).

(** Both buttons: [disabled={requestState.loading}]. *)
Definition buttons_disabled (st : State) : bool := loading (requestState st).

(** [{requestState.error && <p>...</p>}] and the same for the success
    message: the text shown, if any. *)
Definition shown_error (st : State) : option string :=
  if truthy (error (requestState st)) then error (requestState st) else None.

Definition shown_success (st : State) : option string :=
  if truthy (successMessage (requestState st))
  then successMessage (requestState st) else None.

(** [status ? <badges> : "Fetching LLM status..."] *)
Definition fetching_shown (st : State) : bool :=
  match status st with Some _ => false | None => true end.

End LlmCard.

Section CardVocabulary.
Import LlmCard.

(** The request state while a call is in flight after [loadStatus]
    raised the flag: the success message of before is kept. *)
Definition refreshing (rs : RequestState) : RequestState :=
  {| loading := true; error := None; successMessage := successMessage rs |}.

(** The request state [handleInitialize] starts with. *)
Definition initializing : RequestState :=
  {| loading := true; error := None; successMessage := None |}.

Definition settled_with (msg : option string) : RequestState :=
  {| loading := false; error := None; successMessage := msg |}.

Definition failed_with (msg : string) : RequestState :=
  {| loading := false; error := Some msg; successMessage := None |}.

(** The success message [response.message || "LLM initialized successfully"]. *)
Definition success_text (r : InitResponse) : string :=
  or_literal (init_message r) "LLM initialized successfully".

End CardVocabulary.

(** ** More concrete inputs *)

Module Sample2.

(** A draft ready to be saved. *)
Definition named_draft : Builder.State :=
  {| name := " Flow "; description := "d";
     nodes := [Obj (newNode 0)]; loading := false |}.

(** A world for the builder in which [get] answers with [doc]. *)
Definition library (doc : ApiError + Draft.WorkflowDoc) : Draft.World :=
  {| Draft.base := Sample.world (inr Sample.greeting) (inr tt) [];
     Draft.api_get := fun _ => doc |}.

(** A world in which saving fails without a message. *)
Definition read_only : Env :=
  {| confirm_answer := fun _ => true; api_list := inr [];
     api_create := fun _ => inl Sample.silent;
     api_update := fun _ _ => inl Sample.silent;
     api_delete := fun _ => inr tt;
     api_execute := fun _ _ => inl Sample.silent |}.

End Sample2.

(** * Properties *)

(** ** The definitions at work on small inputs *)

Example trim_strips_both_ends : trim "  a b  " = "a b".
Proof. reflexivity. Qed.

Example trim_of_blanks : trim "   " = "".
Proof. reflexivity. Qed.

Example addNode_twice :
  Nat.iter 2 addNode [] = [Obj (newNode 0); Obj (newNode 1)].
Proof. reflexivity. Qed.

Example newNode_twelfth_name : newNode 11 !! "name" = Some (VStr "Node 12").
Proof. vm_compute. reflexivity. Qed.

Example updateNode_far_past_end :
  updateNode 2 "name" (VStr "x") [] = [Hole; Hole; Obj {["name" := VStr "x"]}].
Proof. reflexivity. Qed.

Example removeNode_skips_empty_slots :
  removeNode 0 [Obj ∅; Hole; Obj ∅] = [Obj ∅].
Proof. reflexivity. Qed.

Example failure_message_tiers :
  Executor.failure_message Sample.not_found = "Workflow not found" ∧
  Executor.failure_message Sample.network_down = "Network Error" ∧
  Executor.failure_message Sample.silent = "Execution failed".
Proof. repeat split. Qed.

Example render_greeting :
  Executor.render_result (Some Sample.greeting)
  = [Executor.FinalOutput "Hello!";
     Executor.ExecutionLog ["start"; "node A"; "end"];
     Executor.SummaryPanel (Some 1%Z) "Failed"].
Proof. reflexivity. Qed.

Example save_creates_when_unsaved :
  events_of (handleSave None (Sample.world (inr Sample.greeting) (inr tt) [])
               {| Builder.name := "Flow"; Builder.description := "";
                  Builder.nodes := []; Builder.loading := false |})
  = [EvRequest (ReqCreate {| wf_name := "Flow"; wf_description := "";
                             wf_nodes := [] |});
     EvOnSaved].
Proof. reflexivity. Qed.

(** ** The builder's node operations *)

Section NodeArrays.
Implicit Types (nodes : list Elem) (e : Elem) (o : Node).

Lemma spread_array_dense nodes :
  has_hole nodes = false → spread_array nodes = nodes.
Proof.
  unfold has_hole, spread_array.
  induction nodes as [|e nodes IH]; [done|].
  rewrite fmap_cons. simpl. intros [He Hn]%orb_false_elim.
  rewrite IH by done. by destruct e.
Qed.

Lemma spread_array_length nodes : length (spread_array nodes) = length nodes.
Proof. unfold spread_array. by rewrite length_fmap. Qed.

Lemma spread_array_lookup_obj nodes j o :
  nodes !! j = Some (Obj o) → spread_array nodes !! j = Some (Obj o).
Proof. intros H. unfold spread_array. by rewrite list_lookup_fmap, H. Qed.

Lemma node_sequence_dense nodes :
  node_sequence nodes = true → has_hole nodes = false.
Proof.
  unfold node_sequence, has_hole.
  induction nodes as [|e nodes IH]; simpl; [done|].
  intros [He Hn]%andb_prop. rewrite IH by done. by destruct e.
Qed.

Lemma node_sequence_lookup nodes i :
  node_sequence nodes = true → i < length nodes →
  ∃ o, nodes !! i = Some (Obj o).
Proof.
  unfold node_sequence. revert i.
  induction nodes as [|e nodes IH]; simpl; intros i; [lia|].
  intros [He Hn]%andb_prop Hi. destruct i as [|i].
  - destruct e; try done. by eexists.
  - apply IH; [done | lia].
Qed.

Lemma has_hole_fmap_obj (k : nat → Node) (l : list nat) :
  has_hole ((λ i, Obj (k i)) <$> l) = false.
Proof. unfold has_hole. induction l; simpl; auto. Qed.

(** On an array without empty slots, filtering out one index removes
    exactly that position. *)
Lemma filter_index_delete nodes index start :
  has_hole nodes = false →
  filter_index (λ i, negb (i =? index)) start nodes
  = if decide (start ≤ index) then delete (index - start) nodes else nodes.
Proof.
  unfold has_hole. revert start.
  induction nodes as [|e nodes IH]; intros start; simpl.
  - intros _. by case_decide.
  - intros [He Hn]%orb_false_elim. rewrite He, (IH (S start) Hn).
    destruct (Nat.eqb_spec start index) as [->|Hne]; simpl.
    + rewrite Nat.sub_diag. simpl. repeat case_decide; try lia. done.
    + repeat case_decide; try lia; try done.
      replace (index - start) with (S (index - S start)) by lia. done.
Qed.

Lemma removeNode_delete nodes index :
  has_hole nodes = false → removeNode index nodes = delete index nodes.
Proof.
  intros H. unfold removeNode. rewrite filter_index_delete by done.
  rewrite decide_True by lia. by rewrite Nat.sub_0_r.
Qed.

Lemma iter_addNode n :
  Nat.iter n addNode [] = (λ k, Obj (newNode k)) <$> seq 0 n.
Proof.
  induction n as [|n IH]; [done|].
  rewrite seq_S, fmap_app. simpl. rewrite IH. unfold addNode.
  rewrite spread_array_dense by apply has_hole_fmap_obj.
  by rewrite length_fmap, length_seq.
Qed.

Lemma newNode_fresh count :
  fresh_node_named ("Node " +:+ decimal (count + 1)) (newNode count).
Proof.
  unfold fresh_node_named, newNode. split_and!.
  - by rewrite lookup_insert_eq.
  - by rewrite lookup_insert_ne, lookup_insert_eq.
  - exists (<["default_target" := VStr "END"]>
            (<["conditional_targets" := VArr []]> ∅)).
    split_and!; by simplify_map_eq.
  - rewrite !dom_insert_L, dom_empty_L. set_solver.
Qed.

End NodeArrays.

(** C6. Starting from an empty draft, [n] calls of [addNode] give a node
    sequence of length [n] whose [i]-th node (counting from 1) is named
    ["Node i"], has an empty prompt, routes to ["END"] by default and has
    no conditional targets; every call appends one node and leaves each
    node already present where and as it was. *)
Theorem addNode_n_times (n i : nat) (Hi : 1 ≤ i ≤ n) :
  length (Nat.iter n addNode []) = n ∧
  (∃ o, Nat.iter n addNode [] !! (i - 1) = Some (Obj o) ∧
        fresh_node_named ("Node " +:+ decimal i) o) ∧
  (∀ nodes, length (addNode nodes) = S (length nodes)) ∧
  (∀ nodes j o, nodes !! j = Some (Obj o) → addNode nodes !! j = Some (Obj o)) ∧
  (∀ m, Nat.iter (S m) addNode [] = Nat.iter m addNode [] ++ [Obj (newNode m)]).
Proof.
  rewrite iter_addNode. split_and!.
  - by rewrite length_fmap, length_seq.
  - exists (newNode (i - 1)). split.
    + rewrite list_lookup_fmap, lookup_seq_lt by lia. done.
    + pose proof (newNode_fresh (i - 1)) as H.
      by replace (i - 1 + 1) with i in H by lia.
  - intros nodes. unfold addNode.
    rewrite length_app, spread_array_length. simpl. lia.
  - intros nodes j o H. unfold addNode.
    rewrite lookup_app_l.
    + by apply spread_array_lookup_obj.
    + rewrite spread_array_length. by eapply lookup_lt_Some.
  - intros m. rewrite !iter_addNode, seq_S, fmap_app. done.
Qed.

Lemma addNode_n_times_witness :
  length (Nat.iter 3 addNode []) = 3 ∧
  ∃ o, Nat.iter 3 addNode [] !! 1 = Some (Obj o) ∧ fresh_node_named "Node 2" o.
Proof.
  destruct (addNode_n_times 3 2 ltac:(lia)) as (Hlen & Hnode & _).
  exact (conj Hlen Hnode).
Defined.

(** C7. On a node sequence (every position holds a node) of length
    [n > 1] and for a valid index [i],
    [removeNode i] gives a sequence of length [n - 1]; the nodes before
    position [i] stay where they are and the node at each position [k]
    after [i] is found, unchanged, at position [k - 1]. *)
Theorem removeNode_shifts_left (nodes : list Elem) (i : nat)
    (Hseq : node_sequence nodes = true)
    (Hlen : 1 < length nodes) (Hi : i < length nodes) :
  length (removeNode i nodes) = length nodes - 1 ∧
  (∀ j, j < i → removeNode i nodes !! j = nodes !! j) ∧
  (∀ k, i < k → removeNode i nodes !! (k - 1) = nodes !! k).
Proof.
  rewrite removeNode_delete by by apply node_sequence_dense. split_and!.
  - apply length_delete. by apply lookup_lt_is_Some_2.
  - intros j Hj. by apply list_lookup_delete_lt.
  - intros k Hk. rewrite list_lookup_delete_ge by lia.
    f_equal. lia.
Qed.

Lemma removeNode_shifts_left_witness :
  removeNode 1 [Obj (newNode 0); Obj (newNode 1); Obj (newNode 2)] !! 1
  = Some (Obj (newNode 2)).
Proof.
  pose proof (removeNode_shifts_left
                [Obj (newNode 0); Obj (newNode 1); Obj (newNode 2)] 1
                eq_refl ltac:(simpl; lia) ltac:(simpl; lia)) as (_ & _ & H).
  exact (H 2 ltac:(lia)).
Defined.

(** C8. On a node sequence (every position holds a node) and for a valid
    index [i], [updateNode i f v] sets member [f] of the node [o] at
    position [i] to [v] and nothing else: the node's other members, every
    other position and the length of the sequence are as before. *)
Theorem updateNode_changes_one_field (nodes : list Elem) (i : nat)
    (f : string) (v : val)
    (Hseq : node_sequence nodes = true) (Hi : i < length nodes) :
  ∃ o o', nodes !! i = Some (Obj o) ∧
          updateNode i f v nodes !! i = Some (Obj o') ∧
          o' !! f = Some v ∧
          (∀ g, g ≠ f → o' !! g = o !! g) ∧
          (∀ j, j ≠ i → updateNode i f v nodes !! j = nodes !! j) ∧
          length (updateNode i f v nodes) = length nodes.
Proof.
  destruct (node_sequence_lookup nodes i Hseq Hi) as [o Ho].
  unfold updateNode. rewrite spread_array_dense by by apply node_sequence_dense.
  unfold array_set, array_get. rewrite Ho.
  destruct (Nat.ltb_spec i (length nodes)) as [_|?]; [|lia]. simpl.
  exists o, (<[f := v]> o). split_and!.
  - done.
  - by apply list_lookup_insert_eq.
  - by rewrite lookup_insert_eq.
  - intros g Hg. by rewrite lookup_insert_ne.
  - intros j Hj. by rewrite list_lookup_insert_ne.
  - by rewrite length_insert.
Qed.

Lemma updateNode_changes_one_field_witness :
  ∃ o', updateNode 0 "prompt" (VStr "hi") [Obj (newNode 0); Obj (newNode 1)] !! 0
        = Some (Obj o') ∧ o' !! "prompt" = Some (VStr "hi").
Proof.
  destruct (updateNode_changes_one_field
              [Obj (newNode 0); Obj (newNode 1)] 0
              "prompt" (VStr "hi") eq_refl ltac:(simpl; lia))
    as (o & o' & _ & H1 & H2 & _).
  exact (ex_intro _ o' (conj H1 H2)).
Defined.

(** C10. [updateNode] is defined for every index. Called with the index
    one past the end it neither fails nor leaves the sequence as it was:
    the sequence grows by one, the positions already there are copied,
    and the new last element is exactly the one-member object
    [{ f: v }], which has none of the other members of a node. *)
Theorem updateNode_one_past_end (nodes : list Elem) (f : string) (v : val) :
  updateNode (length nodes) f v nodes
    = spread_array nodes ++ [Obj {[f := v]}] ∧
  length (updateNode (length nodes) f v nodes) = S (length nodes) ∧
  updateNode (length nodes) f v nodes ≠ nodes ∧
  updateNode (length nodes) f v nodes !! length nodes = Some (Obj {[f := v]}) ∧
  (∀ j o, nodes !! j = Some (Obj o) →
          updateNode (length nodes) f v nodes !! j = Some (Obj o)) ∧
  (∀ g, g ≠ f → ({[f := v]} : Node) !! g = None) ∧
  dom ({[f := v]} : Node) = ({[f]} : gset string).
Proof.
  assert (Heq : updateNode (length nodes) f v nodes
                = spread_array nodes ++ [Obj {[f := v]}]).
  { unfold updateNode, array_set, array_get.
    rewrite spread_array_length.
    destruct (Nat.ltb_spec (length nodes) (length nodes)) as [?|_]; [lia|].
    rewrite Nat.sub_diag. simpl.
    rewrite lookup_ge_None_2 by (rewrite spread_array_length; lia).
    simpl. by rewrite insert_empty. }
  rewrite Heq. split_and!.
  - done.
  - rewrite length_app, spread_array_length. simpl. lia.
  - intros H. apply (f_equal length) in H.
    rewrite length_app, spread_array_length in H. simpl in H. lia.
  - rewrite lookup_app_r by (rewrite spread_array_length; lia).
    by rewrite spread_array_length, Nat.sub_diag.
  - intros j o H. rewrite lookup_app_l.
    + by apply spread_array_lookup_obj.
    + rewrite spread_array_length. by eapply lookup_lt_Some.
  - intros g Hg. by rewrite lookup_singleton_ne.
  - by rewrite dom_singleton_L.
Qed.

(** ** Strings *)

Lemma trim_end_whitespace_only s :
  whitespace_only s = true → trim_end s = "".
Proof.
  induction s as [|c s IH]; simpl; [done|].
  intros [Hc Hs]%andb_prop. by rewrite IH, Hc.
Qed.

Lemma trim_end_empty s : trim_end s = "" → whitespace_only s = true.
Proof.
  induction s as [|c s IH]; simpl; [done|].
  destruct (trim_end s); [|done].
  destruct (is_whitespace c); [|done]. intros _. by rewrite IH.
Qed.

Lemma trim_start_whitespace_only s :
  whitespace_only (trim_start s) = true ↔ whitespace_only s = true.
Proof.
  induction s as [|c s IH]; simpl; [done|].
  destruct (is_whitespace c) eqn:Hc; simpl; [done|].
  by rewrite Hc.
Qed.

(** [s.trim()] is empty exactly when [s] is empty or all whitespace. *)
Lemma trim_empty_iff s : trim s = "" ↔ whitespace_only s = true.
Proof.
  unfold trim. rewrite <- trim_start_whitespace_only. split.
  - apply trim_end_empty.
  - apply trim_end_whitespace_only.
Qed.

Lemma truthy_string_false s : truthy_string s = false ↔ s = "".
Proof. by destruct s. Qed.

Lemma truthy_string_true s : truthy_string s = true ↔ s ≠ "".
Proof. by destruct s. Qed.

Lemma or_literal_truthy a lit :
  truthy_string lit = true → truthy_string (or_literal a lit) = true.
Proof.
  intros H. unfold or_literal.
  destruct a as [s|]; [|done]. by destruct (truthy_string s) eqn:E.
Qed.

(** ** The execution controller *)

Section ExecutorRuns.
Import Executor.
Implicit Types (env : Env) (st : State) (err : ApiError).


Lemma handleExecute_invalid env st :
  rejected st = true →
  handleExecute env st
  = (Normal tt, st, [(EvAlert "Please select a workflow and provide input", st)]).
Proof. intros H. unfold handleExecute. by rewrite H. Qed.

Lemma handleExecute_resolves env st data :
  rejected st = false →
  api_execute env (selectedId st) (input st) = inr data →
  handleExecute env st
  = (Normal tt, settled st data, [(EvRequest (execute_request st), in_flight st)]).
Proof.
  intros H Hapi. unfold handleExecute. rewrite H. simpl.
  unfold try_finally, try_catch, mbind, M_bind, bind, await. simpl.
  by rewrite Hapi.
Qed.

Lemma handleExecute_rejects env st err :
  rejected st = false →
  api_execute env (selectedId st) (input st) = inl err →
  handleExecute env st
  = (Normal tt, settled st (error_result (failure_message err)),
     [(EvRequest (execute_request st), in_flight st)]).
Proof.
  intros H Hapi. unfold handleExecute. rewrite H. simpl.
  unfold try_finally, try_catch, mbind, M_bind, bind, await. simpl.
  by rewrite Hapi.
Qed.

Lemma rejected_iff st :
  rejected st = true ↔ selectedId st = "" ∨ whitespace_only (input st) = true.
Proof.
  unfold rejected. rewrite orb_true_iff, !negb_true_iff, !truthy_string_false.
  by rewrite trim_empty_iff.
Qed.

End ExecutorRuns.

Section ExecutorClaims.
Import Executor.
Implicit Types (env : Env) (st : State) (err : ApiError) (r : ExecutionResult).

Lemma failure_message_server err m :
  server_error err = Some m → m ≠ "" → failure_message err = m.
Proof.
  intros H Hm. unfold failure_message, or_else. rewrite H. simpl.
  destruct m; [done|]. done.
Qed.

Lemma failure_message_transport err m :
  truthy (server_error err) = false →
  message err = Some m → m ≠ "" → failure_message err = m.
Proof.
  intros Hs H Hm. unfold failure_message, or_else. rewrite Hs, H.
  destruct m; [done|]. done.
Qed.

Lemma failure_message_fallback err :
  truthy (server_error err) = false → truthy (message err) = false →
  failure_message err = "Execution failed".
Proof.
  intros Hs Hm. unfold failure_message, or_else. rewrite Hs.
  unfold or_literal. destruct (message err) as [m|]; [|done].
  simpl in Hm. by rewrite Hm.
Qed.

Lemma failure_message_nonempty err : failure_message err ≠ "".
Proof.
  apply truthy_string_true. unfold failure_message.
  by apply or_literal_truthy.
Qed.

(** C1, as stated, fails. A rejection that has no [message] but carries
    a server-provided error stores that error, not the fallback; and a
    server-provided error that is present but empty is passed over for
    the rejection's own message. *)
Lemma failure_without_message_counterexample :
  (message Sample.not_found = None ∧
   result (final_state_of
             (handleExecute (Sample.world (inl Sample.not_found) (inr tt) [])
                            (Sample.ready None)))
   = Some (error_result "Workflow not found") ∧
   error_result "Workflow not found" ≠ error_result "Execution failed") ∧
  (server_error Sample.empty_body = Some "" ∧
   result (final_state_of
             (handleExecute (Sample.world (inl Sample.empty_body) (inr tt) [])
                            (Sample.ready None)))
   = Some (error_result "Request failed with status code 500") ∧
   error_result "Request failed with status code 500" ≠ error_result "").
Proof.
  split; (split_and!; [reflexivity | reflexivity | discriminate]).
Qed.

(** C1 (amended). When an execute request that passed validation fails,
    the controller stores [{ error: msg }] where [msg] is the first
    non-empty one of: the server-provided error, the rejection's own
    message, the literal ["Execution failed"]. In particular, when
    neither the server-provided error nor the rejection's message is
    present and non-empty, the stored result is
    [{ error: "Execution failed" }]. *)
Theorem failure_message_priority env st err
    (Hvalid : rejected st = false)
    (Hfail : api_execute env (selectedId st) (input st) = inl err) :
  result (final_state_of (handleExecute env st))
    = Some (error_result (failure_message err)) ∧
  (∀ m, server_error err = Some m → m ≠ "" → failure_message err = m) ∧
  (truthy (server_error err) = false →
     ∀ m, message err = Some m → m ≠ "" → failure_message err = m) ∧
  (truthy (server_error err) = false → truthy (message err) = false →
     result (final_state_of (handleExecute env st))
       = Some (error_result "Execution failed")).
Proof.
  rewrite (handleExecute_rejects env st err Hvalid Hfail).
  unfold final_state_of. simpl. split_and!.
  - done.
  - apply failure_message_server.
  - intros Hs m. by apply failure_message_transport.
  - intros Hs Hm. by rewrite failure_message_fallback.
Qed.

Lemma failure_message_priority_witness :
  result (final_state_of
            (handleExecute (Sample.world (inl Sample.silent) (inr tt) [])
                           (Sample.ready None)))
  = Some (error_result "Execution failed").
Proof.
  destruct (failure_message_priority
              (Sample.world (inl Sample.silent) (inr tt) [])
              (Sample.ready None) Sample.silent eq_refl eq_refl)
    as (_ & _ & _ & H).
  exact (H eq_refl eq_refl).
Defined.

(** *** Rendering *)

(** C2, as stated, fails: a response whose [error] member is the empty
    string is stored as it is, has an [error] member, and is rendered
    down the success branch. *)
Lemma empty_error_counterexample :
  result_error Sample.empty_error = Some "" ∧
  result (final_state_of
            (handleExecute (Sample.world (inr Sample.empty_error) (inr tt) [])
                           (Sample.ready None)))
  = Some Sample.empty_error ∧
  render_result (Some Sample.empty_error) = [FinalOutput "No output"].
Proof. split_and!; reflexivity. Qed.

(** C2 (amended). For every stored result whose [error] member is a
    non-empty string, rendering shows the error panel with that string
    and none of the three success panels; every result stored by the
    failure path of [handleExecute] is of that kind. *)
Theorem truthy_error_renders_only_error r msg
    (Herr : result_error r = Some msg) (Hmsg : msg ≠ "") :
  render_result (Some r) = [ErrorPanel msg] ∧
  existsb is_success_panel (render_result (Some r)) = false ∧
  (∀ err, render_result (Some (error_result (failure_message err)))
          = [ErrorPanel (failure_message err)]).
Proof.
  assert (H : ∀ r' m, result_error r' = Some m → m ≠ "" →
                      render_result (Some r') = [ErrorPanel m]).
  { intros r' m Hr Hm. unfold render_result. rewrite Hr. simpl.
    by destruct m. }
  rewrite (H r msg Herr Hmsg). split_and!; [done | done |].
  intros err. apply H; [done | apply failure_message_nonempty].
Qed.

Lemma truthy_error_renders_only_error_witness :
  render_result (Some (error_result "Execution failed"))
  = [ErrorPanel "Execution failed"].
Proof.
  destruct (truthy_error_renders_only_error
              (error_result "Execution failed") "Execution failed"
              eq_refl ltac:(discriminate)) as (H & _).
  exact H.
Defined.

(** C3, as stated, fails: a final output that is present but empty is
    replaced by the fallback text. *)
Lemma empty_output_counterexample :
  (fs ← final_state Sample.empty_output; last_response_content fs) = Some "" ∧
  truthy (result_error Sample.empty_output) = false ∧
  render_result (Some Sample.empty_output) = [FinalOutput "No output"] ∧
  FinalOutput "No output" ≠ FinalOutput "".
Proof. split_and!; [reflexivity | reflexivity | reflexivity | discriminate]. Qed.

(** C3 (amended). For every stored result rendered down the success
    branch (its [error] member is absent or empty): the Final Output panel
    comes first and shows [final_state.last_response_content] when that is
    a non-empty string and ["No output"] otherwise (absent or empty); the
    Execution Log panel is shown exactly when the log is present and
    non-empty, with its lines as they are; the Summary panel is shown
    exactly when the summary is present, with [nodes_executed] as it is
    and the label ["Failed"] when [has_error] is true, else ["Success"].
    The response [{ final_state: {}, execution_log: [], summary:
    { nodes_executed: 3, has_error: false } }] shows ["No output"], no
    log panel, and ["Success"] with 3 nodes. *)
Theorem success_branch_panels r
    (Hsuccess : truthy (result_error r) = false) :
  (∃ text rest,
      render_result (Some r) = FinalOutput text :: rest ∧
      (∀ p, p ∈ rest → ∀ t, p ≠ FinalOutput t) ∧
      (∀ s, (fs ← final_state r; last_response_content fs) = Some s → s ≠ "" →
            text = s) ∧
      (truthy (fs ← final_state r; last_response_content fs) = false →
            text = "No output")) ∧
  (∀ p, p ∈ render_result (Some r) → ∀ m, p ≠ ErrorPanel m) ∧
  (∀ lines, ExecutionLog lines ∈ render_result (Some r)
            ↔ execution_log r = Some lines ∧ lines ≠ []) ∧
  (∀ n label, SummaryPanel n label ∈ render_result (Some r)
            ↔ ∃ s, summary r = Some s ∧ n = nodes_executed s ∧
                   label = if default false (has_error s)
                           then "Failed" else "Success") ∧
  render_result (Some Sample.three_nodes)
    = [FinalOutput "No output"; SummaryPanel (Some 3%Z) "Success"].
Proof.
  unfold render_result. rewrite Hsuccess.
  assert (Hlog : ∀ p, p ∈ render_log (execution_log r) →
                      ∃ l, p = ExecutionLog l ∧ execution_log r = Some l ∧ l ≠ []).
  { intros p. unfold render_log. destruct (execution_log r) as [l|].
    - destruct l as [|x l]; simpl.
      + by intros ?%elem_of_nil.
      + intros ->%list_elem_of_singleton. by exists (x :: l).
    - by intros ?%elem_of_nil. }
  assert (Hsum : ∀ p, p ∈ render_summary (summary r) →
                      ∃ s, p = SummaryPanel (nodes_executed s)
                                 (if default false (has_error s)
                                  then "Failed" else "Success")
                           ∧ summary r = Some s).
  { intros p. unfold render_summary. destruct (summary r) as [s|].
    - intros ->%list_elem_of_singleton. by exists s.
    - by intros ?%elem_of_nil. }
  split_and!.
  - eexists _, _. split; [reflexivity|]. split_and!.
    + intros p [Hp|Hp]%elem_of_app t.
      * destruct (Hlog p Hp) as (l & -> & _). done.
      * destruct (Hsum p Hp) as (s & -> & _). done.
    + intros s Hs Hne. rewrite Hs. simpl. by destruct s.
    + intros Hf. unfold or_literal.
      destruct (fs ← final_state r; last_response_content fs) as [s|]; [|done].
      simpl in Hf. by rewrite Hf.
  - intros p Hp m. simpl in Hp.
    apply elem_of_cons in Hp as [->|[Hp|Hp]%elem_of_app]; [done| |].
    + destruct (Hlog p Hp) as (l & -> & _). done.
    + destruct (Hsum p Hp) as (s & -> & _). done.
  - intros lines. simpl. split.
    + intros [Hp|[Hp|Hp]%elem_of_app]%elem_of_cons; [done| |].
      * destruct (Hlog _ Hp) as (l & [= ->] & ? & ?). done.
      * destruct (Hsum _ Hp) as (s & ? & _). done.
    + intros [Hl Hne]. apply elem_of_cons. right. apply elem_of_app. left.
      unfold render_log. rewrite Hl. destruct lines; [done|].
      simpl. apply list_elem_of_singleton. done.
  - intros n label. simpl. split.
    + intros [Hp|[Hp|Hp]%elem_of_app]%elem_of_cons; [done| |].
      * destruct (Hlog _ Hp) as (l & ? & _). done.
      * destruct (Hsum _ Hp) as (s & [= -> ->] & ?). by exists s.
    + intros (s & Hs & -> & ->). apply elem_of_cons. right.
      apply elem_of_app. right. unfold render_summary. rewrite Hs.
      apply list_elem_of_singleton. done.
  - reflexivity.
Qed.

Lemma success_branch_panels_witness :
  ExecutionLog ["start"; "node A"; "end"] ∈ render_result (Some Sample.greeting) ∧
  SummaryPanel (Some 1%Z) "Failed" ∈ render_result (Some Sample.greeting).
Proof.
  destruct (success_branch_panels Sample.greeting eq_refl)
    as (_ & _ & Hlog & Hsum & _).
  split.
  - apply Hlog. split; [reflexivity | discriminate].
  - apply Hsum. eexists. split; [reflexivity|]. split; reflexivity.
Defined.

End ExecutorClaims.

(** ** Validation *)

Lemma handleSave_invalid workflowId env (st : Builder.State) :
  trim (Builder.name st) = "" →
  handleSave workflowId env st
  = (Normal tt, st, [(EvAlert "Workflow name is required", st)]).
Proof. intros H. unfold handleSave. by rewrite H. Qed.

(** C4. Validation failures are caught before any network call. [save]
    with a name that is empty once trimmed reports the validation error,
    sends no request and leaves the draft as it is; [execute] with no
    workflow selected, or with an input that is empty or all whitespace,
    reports the validation message, sends no request and stores no
    result. *)
Theorem validation_precedes_network
    (workflowId : option string) (env : Env)
    (draft : Builder.State) (st : Executor.State)
    (Hname : trim (Builder.name draft) = "")
    (Hinput : Executor.selectedId st = "" ∨
              whitespace_only (Executor.input st) = true) :
  (events_of (handleSave workflowId env draft)
     = [EvAlert "Workflow name is required"] ∧
   existsb is_request (events_of (handleSave workflowId env draft)) = false ∧
   final_state_of (handleSave workflowId env draft) = draft) ∧
  (events_of (Executor.handleExecute env st)
     = [EvAlert "Please select a workflow and provide input"] ∧
   existsb is_request (events_of (Executor.handleExecute env st)) = false ∧
   final_state_of (Executor.handleExecute env st) = st ∧
   Executor.result (final_state_of (Executor.handleExecute env st))
     = Executor.result st).
Proof.
  rewrite (handleSave_invalid workflowId env draft Hname).
  rewrite (handleExecute_invalid env st) by by apply rejected_iff.
  by split_and!.
Qed.

Lemma validation_precedes_network_witness :
  events_of (handleSave None (Sample.world (inr Sample.greeting) (inr tt) [])
                        Sample.unnamed_draft)
    = [EvAlert "Workflow name is required"] ∧
  events_of (Executor.handleExecute
               (Sample.world (inr Sample.greeting) (inr tt) [])
               Sample.blank_input)
    = [EvAlert "Please select a workflow and provide input"].
Proof.
  destruct (validation_precedes_network None
              (Sample.world (inr Sample.greeting) (inr tt) [])
              Sample.unnamed_draft Sample.blank_input
              eq_refl (or_intror eq_refl))
    as ((H1 & _) & (H2 & _)).
  exact (conj H1 H2).
Defined.

(** ** The held result over time *)

Section HeldResult.
Import Executor.

Lemma run_keeps_result (a : Action) env st :
  a ≠ ActExecute → result (final_state_of (run a env st)) = result st.
Proof.
  intros Ha. destruct a as [|w|v|v|]; simpl; try done.
  - unfold loadWorkflows, try_catch, mbind, M_bind, bind, await. simpl.
    by destruct (api_list env).
  - unfold onWorkflowId. by destruct (truthy w).
Qed.

(** C5, as stated, fails: the next execute call does not replace the
    held result in one step. It first clears it, and while the request is
    in flight the controller holds no result. *)
Lemma execute_clears_before_request_counterexample :
  result (Sample.ready (Some Sample.three_nodes)) = Some Sample.three_nodes ∧
  trace_of (handleExecute (Sample.world (inr Sample.greeting) (inr tt) [])
                          (Sample.ready (Some Sample.three_nodes)))
  = [(EvRequest (ReqExecute "wf-1" "hello"),
      in_flight (Sample.ready (Some Sample.three_nodes)))] ∧
  result (in_flight (Sample.ready (Some Sample.three_nodes))) = None ∧
  result (final_state_of
            (handleExecute (Sample.world (inr Sample.greeting) (inr tt) [])
                           (Sample.ready (Some Sample.three_nodes))))
  = Some Sample.greeting.
Proof. split_and!; reflexivity. Qed.

(** C5 (amended). After an execute call that passed validation
    completes, the controller holds exactly the result of that call: the
    response on success, the synthetic error record on failure. The
    result stays as it is under every other action of the component and
    under an execute call that validation rejects. The next execute call
    that passes validation replaces it in two steps: the held result
    is cleared before the request is sent, so that no result is held
    while the request is in flight, and the new result is stored when the
    request completes. *)
Theorem execute_holds_one_result env st
    (Hvalid : rejected st = false) :
  (∃ r, result (final_state_of (handleExecute env st)) = Some r ∧
        (api_execute env (selectedId st) (input st) = inr r ∨
         ∃ err, api_execute env (selectedId st) (input st) = inl err ∧
                r = error_result (failure_message err))) ∧
  (trace_of (handleExecute env st)
     = [(EvRequest (execute_request st), in_flight st)] ∧
   result (in_flight st) = None) ∧
  (∀ a env' st', a ≠ ActExecute →
       result (final_state_of (run a env' st')) = result st') ∧
  (∀ env' st', rejected st' = true →
       final_state_of (handleExecute env' st') = st').
Proof.
  split_and!.
  - destruct (api_execute env (selectedId st) (input st)) as [err|r] eqn:Hapi.
    + exists (error_result (failure_message err)).
      rewrite (handleExecute_rejects env st err Hvalid Hapi). eauto.
    + exists r. rewrite (handleExecute_resolves env st r Hvalid Hapi). eauto.
  - destruct (api_execute env (selectedId st) (input st)) as [err|r] eqn:Hapi.
    + by rewrite (handleExecute_rejects env st err Hvalid Hapi).
    + by rewrite (handleExecute_resolves env st r Hvalid Hapi).
  - done.
  - intros a env' st'. apply run_keeps_result.
  - intros env' st' H. by rewrite handleExecute_invalid.
Qed.

Lemma execute_holds_one_result_witness :
  ∃ r, result (final_state_of
                 (handleExecute (Sample.world (inl Sample.network_down) (inr tt) [])
                                (Sample.ready (Some Sample.greeting))))
       = Some r.
Proof.
  destruct (execute_holds_one_result
              (Sample.world (inl Sample.network_down) (inr tt) [])
              (Sample.ready (Some Sample.greeting)) eq_refl)
    as ((r & Hr & _) & _).
  exact (ex_intro _ r Hr).
Defined.

End HeldResult.

(** ** The list view's delete *)

Section DeleteClaims.
Import ListView.
Implicit Types (env : Env) (st : State) (err : ApiError) (wid : string).

Lemma handleDelete_declined env st wid :
  confirm_answer env delete_prompt = false →
  handleDelete wid env st = (Normal tt, st, [(EvConfirm delete_prompt false, st)]).
Proof.
  intros H. unfold handleDelete, mbind, M_bind, bind, confirm.
  fold delete_prompt. by rewrite H.
Qed.

Lemma handleDelete_fails env st wid err :
  confirm_answer env delete_prompt = true →
  api_delete env wid = inl err →
  handleDelete wid env st
  = (Normal tt, st,
     [(EvConfirm delete_prompt true, st);
      (EvRequest (ReqDelete wid), st);
      (EvAlert (or_literal (message err) "Failed to delete workflow"), st)]).
Proof.
  intros H Hdel. unfold handleDelete, mbind, M_bind, bind, confirm.
  fold delete_prompt. rewrite H. simpl.
  unfold try_catch, await. by rewrite Hdel.
Qed.

Lemma handleDelete_reloads env st wid ws :
  confirm_answer env delete_prompt = true →
  api_delete env wid = inr tt →
  api_list env = inr ws →
  handleDelete wid env st
  = (Normal tt, reloaded ws,
     [(EvConfirm delete_prompt true, st);
      (EvRequest (ReqDelete wid), st);
      (EvRequest ReqList, reloading st)]).
Proof.
  intros H Hdel Hlist. unfold handleDelete, mbind, M_bind, bind, confirm.
  fold delete_prompt. rewrite H. simpl.
  unfold try_catch, await. rewrite Hdel. simpl.
  unfold loadWorkflows, try_finally, try_catch, mbind, M_bind, bind, await.
  simpl. by rewrite Hlist.
Qed.

Lemma handleDelete_reload_fails env st wid err :
  confirm_answer env delete_prompt = true →
  api_delete env wid = inr tt →
  api_list env = inl err →
  handleDelete wid env st
  = (Normal tt, reload_failed st err,
     [(EvConfirm delete_prompt true, st);
      (EvRequest (ReqDelete wid), st);
      (EvRequest ReqList, reloading st)]).
Proof.
  intros H Hdel Hlist. unfold handleDelete, mbind, M_bind, bind, confirm.
  fold delete_prompt. rewrite H. simpl.
  unfold try_catch, await. rewrite Hdel. simpl.
  unfold loadWorkflows, try_finally, try_catch, mbind, M_bind, bind, await.
  simpl. by rewrite Hlist.
Qed.

(** C9. The delete operation asks for confirmation first: the confirm
    dialog is the first thing it does, and a declined dialog ends it with
    no request sent and nothing changed. When the delete request fails,
    the state of the view, and so the list it displays, is as before, no
    reload is requested and an alert shows the error. The list changes
    only when the delete request succeeded and the reload of the full
    list that follows it succeeded, and it is then the reloaded list; the
    view holds the state it started from at every step before the reload
    request. *)
Theorem delete_confirms_then_reloads env st wid :
  (∃ rest, trace_of (handleDelete wid env st)
           = (EvConfirm delete_prompt (confirm_answer env delete_prompt), st) :: rest ∧
           (confirm_answer env delete_prompt = false →
              rest = [] ∧ final_state_of (handleDelete wid env st) = st)) ∧
  (∀ err, confirm_answer env delete_prompt = true →
          api_delete env wid = inl err →
          final_state_of (handleDelete wid env st) = st ∧
          view (final_state_of (handleDelete wid env st)) = view st ∧
          events_of (handleDelete wid env st)
            = [EvConfirm delete_prompt true; EvRequest (ReqDelete wid);
               EvAlert (or_literal (message err) "Failed to delete workflow")]) ∧
  (workflows (final_state_of (handleDelete wid env st)) ≠ workflows st →
     confirm_answer env delete_prompt = true ∧
     api_delete env wid = inr tt ∧
     api_list env = inr (workflows (final_state_of (handleDelete wid env st))) ∧
     events_of (handleDelete wid env st)
       = [EvConfirm delete_prompt true; EvRequest (ReqDelete wid);
          EvRequest ReqList]) ∧
  (∀ e s, (e, s) ∈ trace_of (handleDelete wid env st) → s ≠ st →
     api_delete env wid = inr tt ∧ e = EvRequest ReqList) ∧
  (∀ ws, confirm_answer env delete_prompt = true →
         api_delete env wid = inr tt → api_list env = inr ws →
         final_state_of (handleDelete wid env st) = reloaded ws).
Proof.
  assert (Hsame : ∀ (l : list (Event * State)) (P : Event → Prop),
             Forall (λ p, p.2 = st ∨ P p.1) l →
             ∀ e s, (e, s) ∈ l → s ≠ st → P e).
  { intros l P Hl e s Hin Hne. rewrite Forall_forall in Hl.
    destruct (Hl _ Hin) as [?|?]; [done|done]. }
  destruct (confirm_answer env delete_prompt) eqn:Hc.
  - destruct (api_delete env wid) as [err|[]] eqn:Hdel.
    + rewrite (handleDelete_fails env st wid err Hc Hdel).
      split_and!; [by eexists | | done | | done].
      * intros err' _ [= <-]. done.
      * intros e s Hin Hne. exfalso. revert e s Hin Hne.
        apply (Hsame _ (λ _, False)). repeat constructor.
    + destruct (api_list env) as [err|ws] eqn:Hlist.
      * rewrite (handleDelete_reload_fails env st wid err Hc Hdel Hlist).
        split_and!; [by eexists | done | done | | done].
        intros e s Hin Hne. split; [done|]. revert e s Hin Hne.
        apply Hsame. repeat constructor; simpl; ((by left) || (by right)).
      * rewrite (handleDelete_reloads env st wid ws Hc Hdel Hlist).
        split_and!; [by eexists | done | done | | ].
        -- intros e s Hin Hne. split; [done|]. revert e s Hin Hne.
           apply Hsame. repeat constructor; simpl; ((by left) || (by right)).
        -- by intros ws' _ _ [= <-].
  - rewrite (handleDelete_declined env st wid Hc).
    split_and!; [by eexists | done | done | | done].
    intros e s Hin Hne. exfalso. revert e s Hin Hne.
    apply (Hsame _ (λ _, False)). repeat constructor.
Qed.

Lemma delete_confirms_then_reloads_witness :
  final_state_of
    (handleDelete "a" (Sample.world (inr Sample.greeting) (inl Sample.not_found) [])
                  Sample.two_listed)
  = Sample.two_listed.
Proof.
  destruct (delete_confirms_then_reloads
              (Sample.world (inr Sample.greeting) (inl Sample.not_found) [])
              Sample.two_listed "a") as (_ & H & _).
  exact (proj1 (H Sample.not_found eq_refl eq_refl)).
Defined.

End DeleteClaims.

(** * Further properties of the components *)

(** ** Editing the node list *)

Section NodeEdits.
Import Draft.
Implicit Types (nodes : list Elem) (o node : Node) (f g : string) (v w : val).

(** In range, [updateNode] replaces one slot. *)
Lemma updateNode_in_range nodes i f v :
  has_hole nodes = false → i < length nodes →
  updateNode i f v nodes
  = <[i := Obj (<[f := v]> (spread_object (array_get nodes i)))]> nodes.
Proof.
  intros Hd Hi. unfold updateNode. rewrite spread_array_dense by done.
  unfold array_set. by destruct (Nat.ltb_spec i (length nodes)); [|lia].
Qed.

(** One past the end, [updateNode] appends. *)
Lemma updateNode_at_length nodes f v :
  updateNode (length nodes) f v nodes = spread_array nodes ++ [Obj {[f := v]}].
Proof.
  unfold updateNode, array_set, array_get.
  rewrite spread_array_length.
  destruct (Nat.ltb_spec (length nodes) (length nodes)) as [?|_]; [lia|].
  rewrite Nat.sub_diag. simpl.
  rewrite lookup_ge_None_2 by (rewrite spread_array_length; lia).
  simpl. by rewrite insert_empty.
Qed.

Lemma array_get_obj nodes i o :
  nodes !! i = Some (Obj o) → array_get nodes i = Obj o.
Proof. intros H. unfold array_get. by rewrite H. Qed.

Lemma has_hole_app nodes nodes' :
  has_hole (nodes ++ nodes') = has_hole nodes || has_hole nodes'.
Proof. unfold has_hole. apply existsb_app. Qed.

Lemma has_hole_insert nodes i e :
  has_hole nodes = false → is_hole e = false →
  has_hole (<[i := e]> nodes) = false.
Proof.
  unfold has_hole. revert i.
  induction nodes as [|x nodes IH]; intros i; simpl; [done|].
  intros [Hx Hn]%orb_false_elim He. destruct i; simpl.
  - by rewrite He, Hn.
  - by rewrite Hx, IH.
Qed.

Lemma has_hole_updateNode nodes i f v :
  has_hole nodes = false → i ≤ length nodes →
  has_hole (updateNode i f v nodes) = false.
Proof.
  intros Hd Hi. destruct (decide (i = length nodes)) as [->|Hne].
  - rewrite updateNode_at_length, spread_array_dense by done.
    by rewrite has_hole_app, Hd.
  - rewrite updateNode_in_range by (done || lia).
    by apply has_hole_insert.
Qed.

Lemma updateNode_length nodes i f v :
  i ≤ length nodes →
  length (updateNode i f v nodes) = if decide (i = length nodes)
                                    then S (length nodes) else length nodes.
Proof.
  intros Hi. unfold updateNode, array_set. rewrite spread_array_length.
  case_decide as Hd.
  - subst i. destruct (Nat.ltb_spec (length nodes) (length nodes)); [lia|].
    rewrite !length_app, spread_array_length, length_replicate. simpl. lia.
  - destruct (Nat.ltb_spec i (length nodes)); [|lia].
    by rewrite length_insert, spread_array_length.
Qed.

(** X1. Writes to one member of one position overwrite each other: on an
    array without empty slots and for an index up to and including the
    length, two successive [updateNode] calls on the same member leave
    what the second alone would leave. *)
Theorem updateNode_last_write_wins nodes i f v w
    (Hdense : has_hole nodes = false) (Hi : i ≤ length nodes) :
  updateNode i f w (updateNode i f v nodes) = updateNode i f w nodes.
Proof.
  destruct (decide (i = length nodes)) as [->|Hne].
  - rewrite !updateNode_at_length, !spread_array_dense by done.
    rewrite updateNode_in_range.
    + unfold array_get. rewrite lookup_app_r, Nat.sub_diag by lia. simpl.
      rewrite insert_app_r_alt, Nat.sub_diag by lia. simpl.
      by rewrite insert_singleton_eq.
    + by rewrite has_hole_app, Hdense.
    + rewrite length_app. simpl. lia.
  - assert (Hlt : i < length nodes) by lia.
    rewrite (updateNode_in_range nodes) by done.
    rewrite updateNode_in_range.
    + unfold array_get at 1. rewrite list_lookup_insert_eq by done. simpl.
      rewrite list_insert_insert_eq, insert_insert_eq.
      by rewrite updateNode_in_range.
    + by apply has_hole_insert.
    + by rewrite length_insert.
Qed.

Lemma updateNode_last_write_wins_witness :
  updateNode 1 "name" (VStr "b") (updateNode 1 "name" (VStr "a") [Obj (newNode 0)])
  = updateNode 1 "name" (VStr "b") [Obj (newNode 0)].
Proof.
  exact (updateNode_last_write_wins [Obj (newNode 0)] 1 "name"
           (VStr "a") (VStr "b") eq_refl ltac:(simpl; lia)).
Defined.

Lemma array_get_insert_ne nodes i j e :
  i ≠ j → array_get (<[j := e]> nodes) i = array_get nodes i.
Proof. intros H. unfold array_get. by rewrite list_lookup_insert_ne. Qed.

Lemma array_get_insert_eq nodes i o :
  i < length nodes → array_get (<[i := Obj o]> nodes) i = Obj o.
Proof. intros H. unfold array_get. by rewrite list_lookup_insert_eq. Qed.

(** X2. Edits that touch different positions, or different members of
    one position, do not interfere: in range, the two [updateNode] calls
    give the same array in either order. *)
Theorem updateNode_independent_commute nodes i j f g v w
    (Hdense : has_hole nodes = false)
    (Hi : i < length nodes) (Hj : j < length nodes)
    (Hindep : i ≠ j ∨ f ≠ g) :
  updateNode i f v (updateNode j g w nodes)
  = updateNode j g w (updateNode i f v nodes).
Proof.
  rewrite (updateNode_in_range nodes j), (updateNode_in_range nodes i) by done.
  rewrite !updateNode_in_range
    by (by apply has_hole_insert || by rewrite length_insert).
  destruct (decide (i = j)) as [->|Hij].
  - destruct Hindep as [?|Hfg]; [done|].
    rewrite !array_get_insert_eq by done. simpl.
    rewrite !list_insert_insert_eq. do 2 f_equal.
    by apply insert_insert_ne.
  - rewrite !array_get_insert_ne by done.
    by apply list_insert_insert_ne.
Qed.

Lemma updateNode_independent_commute_witness :
  updateNode 0 "name" (VStr "a")
    (updateNode 0 "prompt" (VStr "p") [Obj (newNode 0); Obj (newNode 1)])
  = updateNode 0 "prompt" (VStr "p")
      (updateNode 0 "name" (VStr "a") [Obj (newNode 0); Obj (newNode 1)]).
Proof.
  assert (Hlt : 0 < length [Obj (newNode 0); Obj (newNode 1)]) by (simpl; lia).
  assert (Hfg : 0 ≠ 0 ∨ "name" ≠ "prompt") by (right; discriminate).
  exact (updateNode_independent_commute [Obj (newNode 0); Obj (newNode 1)]
           0 0 "name" "prompt" (VStr "a") (VStr "p") eq_refl Hlt Hlt Hfg).
Defined.

(** X3. [removeNode] undoes [addNode]: on an array without empty slots,
    removing the position of the node just added gives the array back. *)
Theorem removeNode_undoes_addNode nodes
    (Hdense : has_hole nodes = false) :
  removeNode (length nodes) (addNode nodes) = nodes.
Proof.
  unfold addNode. rewrite spread_array_dense by done.
  rewrite removeNode_delete by by rewrite has_hole_app, Hdense.
  rewrite delete_middle. by rewrite app_nil_r.
Qed.

Lemma removeNode_undoes_addNode_witness :
  removeNode 1 (addNode [Obj (newNode 0)]) = [Obj (newNode 0)].
Proof. exact (removeNode_undoes_addNode [Obj (newNode 0)] eq_refl). Defined.

(** X4. [removeNode] with an index that is not a position of the array
    removes nothing: an array without empty slots comes back as it is. *)
Theorem removeNode_out_of_range nodes i
    (Hdense : has_hole nodes = false) (Hi : length nodes ≤ i) :
  removeNode i nodes = nodes.
Proof.
  rewrite removeNode_delete by done. revert i Hi.
  induction nodes as [|e nodes IH]; intros i Hi; [by destruct i|].
  simpl in *. apply orb_false_elim in Hdense as [_ Hd].
  destruct i; [lia|]. simpl. f_equal. apply IH; [done | lia].
Qed.

Lemma removeNode_out_of_range_witness :
  removeNode 5 [Obj (newNode 0); Obj (newNode 1)]
  = [Obj (newNode 0); Obj (newNode 1)].
Proof.
  exact (removeNode_out_of_range [Obj (newNode 0); Obj (newNode 1)] 5
           eq_refl ltac:(simpl; lia)).
Defined.

Lemma has_hole_delete nodes i :
  has_hole nodes = false → has_hole (delete i nodes) = false.
Proof.
  unfold has_hole. revert i.
  induction nodes as [|e nodes IH]; intros i; simpl; [by destruct i|].
  intros [He Hn]%orb_false_elim. destruct i; simpl; [done|].
  by rewrite He, IH.
Qed.

(** X5. The default name is not a key: it counts the nodes present, so
    after a node other than the last is removed from [n] freshly added
    nodes, the next [addNode] gives a second node named ["Node n"]. *)
Theorem default_names_repeat (n i : nat) (Hi : i + 1 < n) :
  length (addNode (removeNode i (Nat.iter n addNode []))) = n ∧
  ∃ o1 o2,
    addNode (removeNode i (Nat.iter n addNode [])) !! (n - 2) = Some (Obj o1) ∧
    addNode (removeNode i (Nat.iter n addNode [])) !! (n - 1) = Some (Obj o2) ∧
    o1 !! "name" = Some (VStr ("Node " +:+ decimal n)) ∧
    o2 !! "name" = Some (VStr ("Node " +:+ decimal n)).
Proof.
  rewrite iter_addNode.
  set (l := (λ k, Obj (newNode k)) <$> seq 0 n).
  assert (Hl : has_hole l = false) by apply has_hole_fmap_obj.
  assert (Hlen : length l = n) by (unfold l; by rewrite length_fmap, length_seq).
  assert (Hdel : length (delete i l) = n - 1).
  { rewrite length_delete; [lia|]. apply lookup_lt_is_Some_2. lia. }
  rewrite removeNode_delete by done. unfold addNode.
  rewrite spread_array_dense by by apply has_hole_delete.
  rewrite Hdel. split.
  - rewrite length_app, Hdel. simpl. lia.
  - assert (Hname : newNode (n - 1) !! "name"
                    = Some (VStr ("Node " +:+ decimal n))).
    { unfold newNode. rewrite lookup_insert_eq.
      by replace (n - 1 + 1) with n by lia. }
    exists (newNode (n - 1)), (newNode (n - 1)). split_and!; try done.
    + rewrite lookup_app_l by lia.
      rewrite list_lookup_delete_ge by lia.
      unfold l. rewrite list_lookup_fmap, lookup_seq_lt by lia.
      simpl. do 3 f_equal. lia.
    + rewrite lookup_app_r by lia.
      by replace (n - 1 - length (delete i l)) with 0 by lia.
Qed.

Lemma default_names_repeat_witness :
  ∃ o1 o2,
    addNode (removeNode 0 (Nat.iter 3 addNode [])) !! 1 = Some (Obj o1) ∧
    addNode (removeNode 0 (Nat.iter 3 addNode [])) !! 2 = Some (Obj o2) ∧
    o1 !! "name" = Some (VStr "Node 3") ∧
    o2 !! "name" = Some (VStr "Node 3").
Proof. exact (proj2 (default_names_repeat 3 0 ltac:(lia))). Defined.

Lemma filter_index_sublist (p : nat → bool) start nodes :
  has_hole (filter_index p start nodes) = false ∧
  sublist (filter_index p start nodes) nodes.
Proof.
  revert start. induction nodes as [|e nodes IH]; intros start; simpl.
  - split; [done | constructor].
  - destruct (IH (S start)) as [Hh Hs].
    destruct e; simpl.
    + split; [done | by constructor].
    + destruct (p start); simpl.
      * split; [done | by constructor].
      * split; [done | by constructor].
    + destruct (p start); simpl.
      * split; [done | by constructor].
      * split; [done | by constructor].
Qed.

(** X23. [removeNode] only ever drops positions. For any array and any
    index, what is left is a part of the array in the same order, and it
    has no empty slot: slots left empty by a write past the end go with
    the first removal. *)
Theorem removeNode_only_drops nodes i :
  sublist (removeNode i nodes) nodes ∧
  has_hole (removeNode i nodes) = false ∧
  length (removeNode i nodes) ≤ length nodes.
Proof.
  destruct (filter_index_sublist (λ j, negb (j =? i)) 0 nodes) as [Hh Hs].
  split_and!; [done | done |]. by apply sublist_length.
Qed.

(** *** Rendering the cards *)

Lemma render_cards_crash_last index nodes o :
  default_target_of (member "routing_rules" o) = None →
  render_cards index (nodes ++ [Obj o]) = None.
Proof.
  intros Ho. revert index.
  induction nodes as [|e nodes IH]; intros index; simpl.
  - by rewrite Ho.
  - destruct e as [| |o']; [apply IH | done |].
    destruct (default_target_of (member "routing_rules" o')); [|done].
    by rewrite IH.
Qed.

(** X6. An update one past the end leaves a draft the builder cannot
    show: unless the member written is [routing_rules], the appended
    object has none, and rendering the cards throws on reading its
    [default_target]. *)
Theorem update_past_end_breaks_render nodes f v
    (Hf : f ≠ "routing_rules") :
  render_nodes (updateNode (length nodes) f v nodes) = None.
Proof.
  unfold render_nodes.
  rewrite updateNode_length by lia. rewrite decide_True by done. simpl.
  rewrite updateNode_at_length, render_cards_crash_last; [done|].
  unfold member. by rewrite lookup_singleton_ne.
Qed.

Lemma update_past_end_breaks_render_witness :
  render_nodes (updateNode 1 "name" (VStr "x") [Obj (newNode 0)]) = None.
Proof.
  exact (update_past_end_breaks_render [Obj (newNode 0)] "name" (VStr "x")
           ltac:(discriminate)).
Defined.

Lemma render_cards_lookup index nodes cards :
  node_sequence nodes = true →
  render_cards index nodes = Some cards →
  length cards = length nodes ∧
  ∀ j o, nodes !! j = Some (Obj o) →
    ∃ c, cards !! j = Some c ∧
         heading c = "Node " +:+ decimal (index + j + 1) ∧
         name_value c = member "name" o ∧
         prompt_value c = member "prompt" o ∧
         default_target_of (member "routing_rules" o)
           = Some (default_target_value c).
Proof.
  unfold node_sequence. revert index cards.
  induction nodes as [|e nodes IH]; intros index cards; simpl.
  - intros _ [= <-]. split; [done|]. intros j o H. by destruct j.
  - intros [He Hn]%andb_prop. destruct e as [| |o']; try done.
    destruct (default_target_of (member "routing_rules" o')) as [t|] eqn:Ht;
      [|done].
    destruct (render_cards (S index) nodes) as [cs|] eqn:Hcs; [|done].
    intros [= <-]. destruct (IH (S index) cs Hn Hcs) as [Hlen Hall].
    split; [simpl; by rewrite Hlen|].
    intros [|j] o Ho; simpl in *.
    + injection Ho as <-. eexists. split; [done|]. simpl.
      by rewrite Nat.add_0_r.
    + destruct (Hall j o Ho) as (c & Hc & Hh & ?). exists c.
      split; [done|]. split; [|done].
      rewrite Hh. do 2 f_equal. lia.
Qed.

(** X7. The cards follow the positions: for a node sequence that renders,
    there is one card per node, in order; the card of position [j] is
    headed ["Node j+1"] whatever the node is named, and its three inputs
    show the node's [name], [prompt] and [routing_rules.default_target]. *)
Theorem cards_follow_positions nodes cards
    (Hseq : node_sequence nodes = true)
    (Hrender : render_nodes nodes = Some (Cards cards)) :
  length cards = length nodes ∧
  ∀ j o, nodes !! j = Some (Obj o) →
    ∃ c, cards !! j = Some c ∧
         heading c = "Node " +:+ decimal (j + 1) ∧
         name_value c = member "name" o ∧
         prompt_value c = member "prompt" o ∧
         default_target_of (member "routing_rules" o)
           = Some (default_target_value c).
Proof.
  unfold render_nodes in Hrender.
  destruct (length nodes =? 0); [done|].
  destruct (render_cards 0 nodes) as [cs|] eqn:Hcs; [|done].
  injection Hrender as <-.
  exact (render_cards_lookup 0 nodes cs Hseq Hcs).
Qed.

Lemma cards_follow_positions_witness :
  ∃ cards,
    render_nodes (removeNode 0 (Nat.iter 2 addNode [])) = Some (Cards cards) ∧
    ∃ c, cards !! 0 = Some c ∧ heading c = "Node 1" ∧
         name_value c = VStr "Node 2".
Proof.
  eexists. split; [reflexivity|].
  destruct (cards_follow_positions
              (removeNode 0 (Nat.iter 2 addNode [])) _ eq_refl eq_refl)
    as [_ H].
  destruct (H 0 (newNode 1) eq_refl) as (c & Hc & Hh & Hn & _).
  exact (ex_intro _ c (conj Hc (conj Hh Hn))).
Defined.

(** *** What the controls keep true *)

Lemma editable_dense nodes : editable nodes → has_hole nodes = false.
Proof.
  unfold editable, has_hole. induction 1 as [|e l (o & -> & _) _ IH]; [done|].
  simpl. done.
Qed.

Lemma editable_node_sequence nodes : editable nodes → node_sequence nodes = true.
Proof.
  unfold editable, node_sequence.
  induction 1 as [|e l (o & -> & _) _ IH]; [done|]. simpl. done.
Qed.

Lemma editable_lookup nodes i o :
  editable nodes → nodes !! i = Some (Obj o) → editable_node o.
Proof.
  unfold editable. rewrite Forall_lookup. intros H Hi.
  destruct (H i _ Hi) as (o' & [= <-] & Ho). done.
Qed.

Lemma editable_render_cards index nodes :
  editable nodes → is_Some (render_cards index nodes).
Proof.
  unfold editable. intros H. revert index.
  induction H as [|e l (o & -> & Hn & Hp & rr & s & Hrr & Ht) _ IH];
    intros index; simpl; [done|].
  unfold member at 1. rewrite Hrr. simpl.
  destruct (IH (S index)) as [cs ->]. done.
Qed.

Lemma editable_newNode count : editable_node (newNode count).
Proof.
  destruct (newNode_fresh count) as (Hn & Hp & (rr & Hrr & Ht & _) & _).
  unfold editable_node. eauto 10.
Qed.

Lemma editable_node_insert_string o f s :
  f ≠ "routing_rules" → editable_node o → editable_node (<[f := VStr s]> o).
Proof.
  intros Hf ((n & Hn) & (p & Hp) & (rr & t & Hrr & Ht)).
  unfold editable_node. split_and!.
  - destruct (decide (f = "name")) as [->|?].
    + rewrite lookup_insert_eq. eauto.
    + rewrite lookup_insert_ne by done. eauto.
  - destruct (decide (f = "prompt")) as [->|?].
    + rewrite lookup_insert_eq. eauto.
    + rewrite lookup_insert_ne by done. eauto.
  - rewrite lookup_insert_ne by done. eauto.
Qed.

Lemma editable_node_insert_rules o (ps : gmap string val) s :
  editable_node o →
  editable_node (<["routing_rules" := VObj (<["default_target" := VStr s]> ps)]> o).
Proof.
  intros ((n & Hn) & (p & Hp) & _). unfold editable_node. split_and!.
  - rewrite lookup_insert_ne by done. eauto.
  - rewrite lookup_insert_ne by done. eauto.
  - eexists _, s. rewrite lookup_insert_eq. split; [done|].
    by rewrite lookup_insert_eq.
Qed.

Lemma editable_update nodes i o f v :
  editable nodes → nodes !! i = Some (Obj o) →
  editable_node (<[f := v]> o) →
  editable (updateNode i f v nodes).
Proof.
  intros He Hi Ho. pose proof (lookup_lt_Some _ _ _ Hi) as Hlt.
  rewrite updateNode_in_range by (by apply editable_dense || done).
  rewrite (array_get_obj nodes i o Hi). simpl.
  apply Forall_insert; [done|]. eauto.
Qed.

Lemma ui_edit_editable nodes nodes' :
  editable nodes → ui_edit nodes nodes' → editable nodes'.
Proof.
  intros He Hstep.
  destruct Hstep as [nodes|nodes i o Hi|nodes i o v Hi|nodes i o v Hi
                     |nodes i o v Hi].
  - unfold addNode. rewrite spread_array_dense by by apply editable_dense.
    apply Forall_app. split; [done|].
    apply Forall_singleton. eexists. split; [done|]. apply editable_newNode.
  - rewrite removeNode_delete by by apply editable_dense.
    by apply Forall_delete.
  - eapply editable_update; [done..|].
    apply editable_node_insert_string; [done|]. by eapply editable_lookup.
  - eapply editable_update; [done..|].
    apply editable_node_insert_string; [done|]. by eapply editable_lookup.
  - eapply editable_update; [done..|].
    apply editable_node_insert_rules. by eapply editable_lookup.
Qed.

(** X8. The controls keep the draft well formed. From a draft whose nodes
    all have a string [name], a string [prompt] and a [routing_rules]
    object with a string [default_target] (the empty draft is one), any
    number of edits through the "Add Node" buttons, the "Remove" buttons
    and the three inputs gives such a draft again, with a node at every
    position, and the node list renders. *)
Theorem ui_edits_keep_draft_editable nodes nodes'
    (Hstart : editable nodes) (Hedits : rtc ui_edit nodes nodes') :
  editable nodes' ∧ node_sequence nodes' = true ∧ is_Some (render_nodes nodes').
Proof.
  assert (He : editable nodes').
  { induction Hedits as [|x y z Hstep _ IH]; [done|].
    apply IH. by eapply ui_edit_editable. }
  split_and!; [done | by apply editable_node_sequence |].
  unfold render_nodes. destruct (length nodes' =? 0); [done|].
  destruct (editable_render_cards 0 nodes' He) as [cs ->]. done.
Qed.

Lemma ui_edits_keep_draft_editable_witness :
  is_Some (render_nodes (onDefaultTarget 0 (newNode 0) "Node 2" (addNode []))).
Proof.
  refine (proj2 (proj2 (ui_edits_keep_draft_editable [] _ (Forall_nil_2 _) _))).
  eapply rtc_l; [apply edit_add|].
  eapply rtc_l; [|apply rtc_refl].
  exact (edit_default_target (addNode []) 0 (newNode 0) "Node 2" eq_refl).
Defined.

End NodeEdits.

(** ** Saving and loading a draft *)

Section SaveAndLoad.
Import Draft.
Implicit Types (env : Env) (st : Builder.State) (workflowId : option string).

Lemma handleSave_resolves workflowId env st :
  trim (name st) ≠ "" →
  save_outcome env workflowId st = inr tt →
  handleSave workflowId env st
  = (Normal tt, idle st,
     [(EvRequest (save_request workflowId st), busy st); (EvOnSaved, busy st)]).
Proof.
  intros Hname Hok. unfold handleSave, save_outcome, save_request in *.
  apply truthy_string_true in Hname. rewrite Hname. simpl.
  unfold Handler.try_finally, Handler.try_catch, mbind, M_bind, Handler.bind,
    Handler.await. simpl.
  revert Hok. destruct (truthy workflowId); simpl; intros Hok.
  - unfold payload in Hok. by rewrite Hok.
  - unfold payload in Hok. by rewrite Hok.
Qed.

Lemma handleSave_rejects workflowId env st err :
  trim (name st) ≠ "" →
  save_outcome env workflowId st = inl err →
  handleSave workflowId env st
  = (Normal tt, idle st,
     [(EvRequest (save_request workflowId st), busy st);
      (EvAlert (or_literal (message err) "Failed to save workflow"), busy st)]).
Proof.
  intros Hname Hok. unfold handleSave, save_outcome, save_request in *.
  apply truthy_string_true in Hname. rewrite Hname. simpl.
  unfold Handler.try_finally, Handler.try_catch, mbind, M_bind, Handler.bind,
    Handler.await. simpl.
  revert Hok. destruct (truthy workflowId); simpl; intros Hok.
  - unfold payload in Hok. by rewrite Hok.
  - unfold payload in Hok. by rewrite Hok.
Qed.

(** X9. A save that passes validation and succeeds sends exactly one
    request and then calls [onSaved]. The request is [update] with the
    given id when [workflowId] is a non-empty string, and [create]
    otherwise (also for the empty id), in step with the heading shown;
    it carries the name as typed (not trimmed), the description and the
    nodes. The save button is disabled while the request is in flight
    and enabled again at the end, and the draft is not changed. *)
Theorem save_sends_draft_once workflowId env st
    (Hname : trim (name st) ≠ "")
    (Hok : save_outcome env workflowId st = inr tt) :
  events_of (handleSave workflowId env st)
    = [EvRequest (save_request workflowId st); EvOnSaved] ∧
  (∀ e s, (e, s) ∈ trace_of (handleSave workflowId env st) →
          save_disabled s = true) ∧
  final_state_of (handleSave workflowId env st) = idle st ∧
  save_disabled (final_state_of (handleSave workflowId env st)) = false ∧
  (∀ wid, workflowId = Some wid → wid ≠ "" →
          title workflowId = "Edit Workflow" ∧
          save_request workflowId st
            = ReqUpdate wid {| wf_name := name st;
                               wf_description := description st;
                               wf_nodes := nodes st |}) ∧
  (workflowId = None ∨ workflowId = Some "" →
          title workflowId = "Create Workflow" ∧
          save_request workflowId st
            = ReqCreate {| wf_name := name st;
                           wf_description := description st;
                           wf_nodes := nodes st |}).
Proof.
  rewrite (handleSave_resolves workflowId env st Hname Hok).
  split_and!; try done.
  - intros e s [[= -> ->]|[[= -> ->]|[]%elem_of_nil]%elem_of_cons]%elem_of_cons;
      done.
  - intros wid -> Hwid. unfold title, save_request. simpl.
    apply truthy_string_true in Hwid. by rewrite Hwid.
  - by intros [->| ->].
Qed.

Lemma save_sends_draft_once_witness :
  events_of (handleSave (Some "wf-1")
               (Sample.world (inr Sample.greeting) (inr tt) [])
               Sample2.named_draft)
  = [EvRequest (save_request (Some "wf-1") Sample2.named_draft); EvOnSaved].
Proof.
  exact (proj1 (save_sends_draft_once (Some "wf-1")
                  (Sample.world (inr Sample.greeting) (inr tt) [])
                  Sample2.named_draft ltac:(discriminate) eq_refl)).
Defined.

(** X10. A save that passes validation and fails keeps the draft: the
    name, the description and the nodes are as typed, [onSaved] is not
    called, one alert shows the rejection's message or, when that is
    missing or empty, "Failed to save workflow", and the save button is
    enabled again. *)
Theorem failed_save_keeps_draft workflowId env st err
    (Hname : trim (name st) ≠ "")
    (Hfail : save_outcome env workflowId st = inl err) :
  events_of (handleSave workflowId env st)
    = [EvRequest (save_request workflowId st);
       EvAlert (or_literal (message err) "Failed to save workflow")] ∧
  or_literal (message err) "Failed to save workflow" ≠ "" ∧
  (EvOnSaved ∉ events_of (handleSave workflowId env st)) ∧
  name (final_state_of (handleSave workflowId env st)) = name st ∧
  description (final_state_of (handleSave workflowId env st)) = description st ∧
  nodes (final_state_of (handleSave workflowId env st)) = nodes st ∧
  save_disabled (final_state_of (handleSave workflowId env st)) = false.
Proof.
  rewrite (handleSave_rejects workflowId env st err Hname Hfail).
  split_and!; try done.
  - apply truthy_string_true. by apply or_literal_truthy.
  - unfold events_of. simpl.
    intros [[=]|[[=]|[]%elem_of_nil]%elem_of_cons]%elem_of_cons.
Qed.

Lemma failed_save_keeps_draft_witness :
  events_of (handleSave None Sample2.read_only Sample2.named_draft)
  = [EvRequest (save_request None Sample2.named_draft);
     EvAlert "Failed to save workflow"].
Proof.
  exact (proj1 (failed_save_keeps_draft None Sample2.read_only
                  Sample2.named_draft Sample.silent
                  ltac:(discriminate) eq_refl)).
Defined.

Implicit Types (w : World) (doc : WorkflowDoc).

Lemma onWorkflowId_cleared workflowId w st :
  truthy workflowId = false →
  onWorkflowId workflowId w st = (Normal tt, cleared st, []).
Proof. intros H. unfold onWorkflowId. by rewrite H. Qed.

Lemma onWorkflowId_loaded wid w st doc :
  wid ≠ "" → api_get w wid = inr doc →
  onWorkflowId (Some wid) w st = (Normal tt, loaded doc, [(EvGet wid, busy st)]).
Proof.
  intros Hwid%truthy_string_true Hget. unfold onWorkflowId, loadWorkflow.
  simpl. rewrite Hwid. simpl.
  unfold Proc.try_finally, Proc.try_catch, mbind, Proc.P_bind, Proc.bind,
    Proc.await, old, Proc.lift. simpl.
  by rewrite Hget.
Qed.

Lemma onWorkflowId_failed wid w st err :
  wid ≠ "" → api_get w wid = inl err →
  onWorkflowId (Some wid) w st
  = (Normal tt, idle st,
     [(EvGet wid, busy st);
      (Base (EvAlert (or_literal (message err) "Failed to load workflow")),
       busy st)]).
Proof.
  intros Hwid%truthy_string_true Hget. unfold onWorkflowId, loadWorkflow.
  simpl. rewrite Hwid. simpl.
  unfold Proc.try_finally, Proc.try_catch, mbind, Proc.P_bind, Proc.bind,
    Proc.await, old, Proc.lift. simpl.
  by rewrite Hget.
Qed.

(** X11. The effect on [workflowId] never mixes two drafts. Without a
    workflow id (none, or the empty string) it empties the draft and
    sends nothing. With one it sends a single [get], during which the
    save button is disabled; when that resolves the whole draft is the
    fetched workflow, a missing description being read as empty; when it
    rejects the draft is as it was and one alert shows the message or
    "Failed to load workflow". *)
Theorem mount_effect_outcomes workflowId w st :
  (truthy workflowId = false →
     Proc.final (onWorkflowId workflowId w st) = cleared st ∧
     Proc.steps (onWorkflowId workflowId w st) = []) ∧
  (∀ wid doc, workflowId = Some wid → wid ≠ "" → api_get w wid = inr doc →
     Proc.final (onWorkflowId workflowId w st) = loaded doc ∧
     Proc.steps (onWorkflowId workflowId w st) = [(EvGet wid, busy st)] ∧
     save_disabled (busy st) = true) ∧
  (∀ wid err, workflowId = Some wid → wid ≠ "" → api_get w wid = inl err →
     Proc.final (onWorkflowId workflowId w st) = idle st ∧
     Proc.events (onWorkflowId workflowId w st)
       = [EvGet wid;
          Base (EvAlert (or_literal (message err) "Failed to load workflow"))]).
Proof.
  split_and!.
  - intros H. by rewrite onWorkflowId_cleared.
  - intros wid doc -> Hwid Hget. by rewrite (onWorkflowId_loaded wid w st doc).
  - intros wid err -> Hwid Hget. by rewrite (onWorkflowId_failed wid w st err).
Qed.

(** X12. Save, then load, is a round trip. The workflow that a valid
    save sends, when fetched back as it was sent, loads into any builder
    as exactly the saved draft: the same name, description and nodes. *)
Theorem save_then_load_round_trip workflowId env st wid w st0
    (Hname : trim (name st) ≠ "")
    (Hwid : wid ≠ "")
    (Hget : api_get w wid = inr (stored (payload st))) :
  (EvRequest (ReqCreate (payload st)) ∈ events_of (handleSave workflowId env st) ∨
   ∃ wid', EvRequest (ReqUpdate wid' (payload st))
             ∈ events_of (handleSave workflowId env st)) ∧
  Proc.final (onWorkflowId (Some wid) w st0) = idle st.
Proof.
  split.
  - destruct (save_outcome env workflowId st) as [err|[]] eqn:Hout.
    + rewrite (handleSave_rejects workflowId env st err Hname Hout).
      unfold events_of, save_request. simpl.
      destruct (truthy workflowId); [right; eexists|left]; apply list_elem_of_here.
    + rewrite (handleSave_resolves workflowId env st Hname Hout).
      unfold events_of, save_request. simpl.
      destruct (truthy workflowId); [right; eexists|left]; apply list_elem_of_here.
  - rewrite (onWorkflowId_loaded wid w st0 _ Hwid Hget).
    unfold Proc.final, loaded, stored, payload, idle. simpl.
    f_equal. by destruct (description st).
Qed.

Lemma save_then_load_round_trip_witness :
  Proc.final
    (onWorkflowId (Some "wf-9")
       (Sample2.library (inr (stored (payload Sample2.named_draft))))
       Draft.initial)
  = idle Sample2.named_draft.
Proof.
  exact (proj2 (save_then_load_round_trip None
                  (Sample.world (inr Sample.greeting) (inr tt) [])
                  Sample2.named_draft "wf-9"
                  (Sample2.library (inr (stored (payload Sample2.named_draft))))
                  Draft.initial ltac:(discriminate) ltac:(discriminate) eq_refl)).
Defined.

End SaveAndLoad.

(** ** The executor's button, preload and first panel *)

Section ExecutorControls.
Import Executor ExecutorView.
Implicit Types (env : Env) (st : State).

Lemma execute_disabled_false st :
  execute_disabled st = false → executing st = false ∧ rejected st = false.
Proof.
  unfold execute_disabled, rejected.
  intros [[He Hs]%orb_false_elim Hi]%orb_false_elim.
  by rewrite He, Hs, Hi.
Qed.

(** X13. The button guards the handler. Whenever the Execute button is
    enabled, a click passes validation: no alert, exactly one execute
    request, for the selected id and with the input as typed (not
    trimmed). While that request is in flight the button is disabled, so
    a second run cannot start; at the end it is enabled again, and the
    selection, the input and the preloaded list are as before. Whenever
    the handler would reject, the button is disabled. *)
Theorem enabled_button_runs_once env st
    (Henabled : execute_disabled st = false) :
  events_of (handleExecute env st)
    = [EvRequest (ReqExecute (selectedId st) (input st))] ∧
  (∀ e s, (e, s) ∈ trace_of (handleExecute env st) → execute_disabled s = true) ∧
  execute_disabled (final_state_of (handleExecute env st)) = false ∧
  selectedId (final_state_of (handleExecute env st)) = selectedId st ∧
  input (final_state_of (handleExecute env st)) = input st ∧
  workflows (final_state_of (handleExecute env st)) = workflows st ∧
  (∀ st', rejected st' = true → execute_disabled st' = true).
Proof.
  destruct (execute_disabled_false st Henabled) as [Hex Hvalid].
  assert (Hfin : ∀ r, execute_disabled (settled st r) = false).
  { intros r. unfold execute_disabled, rejected in *. simpl.
    by apply orb_false_elim in Hvalid as [-> ->]. }
  destruct (api_execute env (selectedId st) (input st)) as [err|r] eqn:Hapi.
  - rewrite (handleExecute_rejects env st err Hvalid Hapi).
    split_and!; try done.
    + by intros e s [[= -> ->]|[]%elem_of_nil]%elem_of_cons.
    + intros st' H. unfold execute_disabled, rejected in *.
      rewrite <- orb_assoc, H. apply orb_true_r.
  - rewrite (handleExecute_resolves env st r Hvalid Hapi).
    split_and!; try done.
    + by intros e s [[= -> ->]|[]%elem_of_nil]%elem_of_cons.
    + intros st' H. unfold execute_disabled, rejected in *.
      rewrite <- orb_assoc, H. apply orb_true_r.
Qed.

Lemma enabled_button_runs_once_witness :
  events_of (handleExecute (Sample.world (inr Sample.greeting) (inr tt) [])
                           (Sample.ready None))
  = [EvRequest (ReqExecute "wf-1" "hello")].
Proof.
  exact (proj1 (enabled_button_runs_once
                  (Sample.world (inr Sample.greeting) (inr tt) [])
                  (Sample.ready None) eq_refl)).
Defined.

(** X14. After a run there is always something to read. Whatever an
    execute call that passed validation ends with, the Results card then
    starts with the error panel or with the Final Output panel, and the
    text of that panel is not empty. *)
Theorem run_always_shows_text env st
    (Hvalid : rejected st = false) :
  ∃ p rest,
    render_result (result (final_state_of (handleExecute env st))) = p :: rest ∧
    ((∃ m, p = ErrorPanel m) ∨ (∃ t, p = FinalOutput t)) ∧
    panel_text p ≠ "".
Proof.
  assert (Hr : ∀ r, ∃ p rest, render_result (Some r) = p :: rest ∧
                 ((∃ m, p = ErrorPanel m) ∨ (∃ t, p = FinalOutput t)) ∧
                 panel_text p ≠ "").
  { intros r. unfold render_result.
    destruct (truthy (result_error r)) eqn:Herr.
    - eexists _, _. split; [done|]. split; [eauto|]. simpl.
      destruct (result_error r) as [m|]; [|done]. simpl in *.
      by apply truthy_string_true.
    - eexists _, _. split; [done|]. split; [eauto|]. simpl.
      apply truthy_string_true. by apply or_literal_truthy. }
  destruct (api_execute env (selectedId st) (input st)) as [err|r] eqn:Hapi.
  - rewrite (handleExecute_rejects env st err Hvalid Hapi). apply Hr.
  - rewrite (handleExecute_resolves env st r Hvalid Hapi). apply Hr.
Qed.

Lemma run_always_shows_text_witness :
  ∃ p rest,
    render_result
      (result (final_state_of
                 (handleExecute (Sample.world (inr Sample.empty_output) (inr tt) [])
                                (Sample.ready None)))) = p :: rest ∧
    ((∃ m, p = ErrorPanel m) ∨ (∃ t, p = FinalOutput t)) ∧
    panel_text p ≠ "".
Proof.
  exact (run_always_shows_text
           (Sample.world (inr Sample.empty_output) (inr tt) [])
           (Sample.ready None) eq_refl).
Defined.

(** X15. The preload of the dropdown is silent and local. It sends one
    [list] request; on success only the list of workflows changes; on
    failure the state is exactly as before and the user gets no alert,
    the failure going to the console only. The selection, the input, the
    busy flag and the held result are never touched. *)
Theorem preload_is_silent env st :
  (∀ ws, api_list env = inr ws →
     final_state_of (loadWorkflows env st)
       = {| workflows := ws; selectedId := selectedId st; input := input st;
            executing := executing st; result := result st |} ∧
     events_of (loadWorkflows env st) = [EvRequest ReqList]) ∧
  (∀ err, api_list env = inl err →
     final_state_of (loadWorkflows env st) = st ∧
     events_of (loadWorkflows env st)
       = [EvRequest ReqList; EvConsoleError "Failed to load workflows:"]) ∧
  (∀ m, EvAlert m ∉ events_of (loadWorkflows env st)).
Proof.
  unfold loadWorkflows, Handler.try_catch, mbind, M_bind, Handler.bind,
    Handler.await.
  destruct (api_list env) as [err|ws]; simpl.
  - split_and!; [done | by intros err' [= <-] | ].
    intros m [[=]|[[=]|[]%elem_of_nil]%elem_of_cons]%elem_of_cons.
  - split_and!; [by intros ws' [= <-] | done | ].
    intros m [[=]|[]%elem_of_nil]%elem_of_cons.
Qed.

End ExecutorControls.

(** ** The list view's load *)

Section ListLoads.
Import ListView.
Implicit Types (env : Env) (st : State).

Lemma list_load_resolves env st ws :
  api_list env = inr ws →
  loadWorkflows env st
  = (Normal tt, reloaded ws, [(EvRequest ReqList, reloading st)]).
Proof.
  intros H. unfold loadWorkflows, Handler.try_finally, Handler.try_catch,
    mbind, M_bind, Handler.bind, Handler.await. simpl. by rewrite H.
Qed.

Lemma list_load_rejects env st err :
  api_list env = inl err →
  loadWorkflows env st
  = (Normal tt, reload_failed st err, [(EvRequest ReqList, reloading st)]).
Proof.
  intros H. unfold loadWorkflows, Handler.try_finally, Handler.try_catch,
    mbind, M_bind, Handler.bind, Handler.await. simpl. by rewrite H.
Qed.

Lemma view_reload_failed st err :
  view (reload_failed st err)
  = ErrorBox (or_literal (message err) "Failed to load workflows").
Proof.
  unfold view, reload_failed. simpl.
  assert (H : truthy_string (or_literal (message err) "Failed to load workflows")
              = true) by by apply or_literal_truthy.
  by rewrite H.
Qed.

(** X16. A load of the list ends in one of two screens, never in the
    spinner. While the single [list] request is in flight the spinner is
    shown. On success the list is the answer and an error shown before is
    gone; on failure the error box shows the rejection's message or
    "Failed to load workflows", a text that is never empty, and the list
    held before is kept, but hidden. *)
Theorem list_load_outcomes env st :
  trace_of (loadWorkflows env st) = [(EvRequest ReqList, reloading st)] ∧
  view (reloading st) = Spinner ∧
  view (final_state_of (loadWorkflows env st)) ≠ Spinner ∧
  (∀ ws, api_list env = inr ws →
     final_state_of (loadWorkflows env st) = reloaded ws ∧
     view (final_state_of (loadWorkflows env st)) = Listing ws) ∧
  (∀ err, api_list env = inl err →
     workflows (final_state_of (loadWorkflows env st)) = workflows st ∧
     view (final_state_of (loadWorkflows env st))
       = ErrorBox (or_literal (message err) "Failed to load workflows") ∧
     or_literal (message err) "Failed to load workflows" ≠ "").
Proof.
  destruct (api_list env) as [err|ws] eqn:Hlist.
  - rewrite (list_load_rejects env st err Hlist).
    unfold final_state_of, trace_of. simpl. rewrite view_reload_failed.
    split_and!; try done.
    intros err' [= <-]. split_and!; try done.
    apply truthy_string_true. by apply or_literal_truthy.
  - rewrite (list_load_resolves env st ws Hlist).
    split_and!; try done. by intros ws' [= <-].
Qed.

(** X17. A delete can succeed and still end in an error screen. When
    the delete request resolves and the reload that follows rejects, no
    alert is raised; the view shows the error box of the load, and the
    list it holds, hidden behind that box, is the one from before the
    delete. *)
Theorem delete_then_failed_reload env st wid err
    (Hconfirm : confirm_answer env delete_prompt = true)
    (Hdelete : api_delete env wid = inr tt)
    (Hlist : api_list env = inl err) :
  view (final_state_of (handleDelete wid env st))
    = ErrorBox (or_literal (message err) "Failed to load workflows") ∧
  workflows (final_state_of (handleDelete wid env st)) = workflows st ∧
  (∀ m, EvAlert m ∉ events_of (handleDelete wid env st)) ∧
  events_of (handleDelete wid env st)
    = [EvConfirm delete_prompt true; EvRequest (ReqDelete wid); EvRequest ReqList].
Proof.
  rewrite (handleDelete_reload_fails env st wid err Hconfirm Hdelete Hlist).
  unfold final_state_of, events_of. simpl. rewrite view_reload_failed.
  split_and!; try done.
  intros m [[=]|[[=]|[[=]|[]%elem_of_nil]%elem_of_cons]%elem_of_cons]%elem_of_cons.
Qed.

Lemma delete_then_failed_reload_witness :
  view (final_state_of
          (handleDelete "a"
             {| confirm_answer := fun _ => true;
                api_list := inl Sample.network_down;
                api_create := fun _ => inr tt; api_update := fun _ _ => inr tt;
                api_delete := fun _ => inr tt;
                api_execute := fun _ _ => inl Sample.silent |}
             Sample.two_listed))
  = ErrorBox "Network Error".
Proof.
  exact (proj1 (delete_then_failed_reload
                  {| confirm_answer := fun _ => true;
                     api_list := inl Sample.network_down;
                     api_create := fun _ => inr tt;
                     api_update := fun _ _ => inr tt;
                     api_delete := fun _ => inr tt;
                     api_execute := fun _ _ => inl Sample.silent |}
                  Sample.two_listed "a" Sample.network_down
                  eq_refl eq_refl eq_refl)).
Defined.

End ListLoads.

(** ** The page *)

Section Page.
Import Home.



(** X19. The "Execute" tab keeps the last selection. It changes the view
    only, so after a workflow was opened for editing and saved (or the
    edit was cancelled), the executor is mounted with that workflow's id
    and preselects it; after the "Workflows" or "Build" button the id is
    gone, nothing is preselected, and the Execute button stays disabled
    whatever is typed. *)
Theorem execute_tab_keeps_selection (page : Home.State) (wid : string) env
    (Hwid : wid ≠ "") :
  mounted (navExecute (onSaved (onEdit wid page))) = MountExecutor (Some wid) ∧
  Executor.selectedId
    (final_state_of (Executor.onWorkflowId (Some wid) env ExecutorView.initial))
    = wid ∧
  mounted (navExecute (navWorkflows (onEdit wid page))) = MountExecutor None ∧
  mounted (navExecute (onSaved (navBuild (onEdit wid page)))) = MountExecutor None ∧
  (∀ text,
     ExecutorView.execute_disabled
       (final_state_of
          (Executor.run (Executor.ActInput text) env
             (final_state_of
                (Executor.onWorkflowId None env ExecutorView.initial))))
     = true).
Proof.
  split_and!; try done.
  unfold Executor.onWorkflowId. simpl.
  apply truthy_string_true in Hwid. by rewrite Hwid.
Qed.

Lemma execute_tab_keeps_selection_witness :
  Executor.selectedId
    (final_state_of
       (Executor.onWorkflowId (Some "wf-1")
          (Sample.world (inr Sample.greeting) (inr tt) [])
          ExecutorView.initial))
  = "wf-1".
Proof.
  assert (Hwid : "wf-1" ≠ "") by discriminate.
  exact (proj1 (proj2 (execute_tab_keeps_selection Home.initial "wf-1"
                  (Sample.world (inr Sample.greeting) (inr tt) []) Hwid))).
Defined.

End Page.

(** ** The LLM status card *)

Section Card.
Import LlmCard.
Implicit Types (w : World) (st : State).

Lemma loadStatus_resolves w st data :
  api_getStatus w = inr data →
  loadStatus w st
  = (Normal tt,
     {| status := Some data;
        requestState := settled_with (successMessage (requestState st)) |},
     [(EvGetStatus,
       {| status := status st; requestState := refreshing (requestState st) |})]).
Proof.
  intros H. unfold loadStatus, Proc.try_catch, mbind, Proc.P_bind, Proc.bind,
    Proc.await. simpl. by rewrite H.
Qed.

Lemma loadStatus_rejects w st err :
  api_getStatus w = inl err →
  loadStatus w st
  = (Normal tt,
     {| status := status st;
        requestState :=
          failed_with (or_literal (message err) "Failed to load LLM status") |},
     [(EvGetStatus,
       {| status := status st; requestState := refreshing (requestState st) |})]).
Proof.
  intros H. unfold loadStatus, Proc.try_catch, mbind, Proc.P_bind, Proc.bind,
    Proc.await. simpl. by rewrite H.
Qed.

(** X20. A status refresh keeps what it cannot replace. It sends one
    [getStatus] request. On success the status shown is the answer, no
    error is shown, and a success message shown before stays. On failure
    the status shown before stays (on a first load the "Fetching"
    placeholder stays), the error is the rejection's message or "Failed
    to load LLM status", and a success message shown before is removed. *)
Theorem status_refresh_outcomes w st :
  Proc.events (loadStatus w st) = [EvGetStatus] ∧
  (∀ data, api_getStatus w = inr data →
     status (Proc.final (loadStatus w st)) = Some data ∧
     shown_error (Proc.final (loadStatus w st)) = None ∧
     shown_success (Proc.final (loadStatus w st)) = shown_success st) ∧
  (∀ err, api_getStatus w = inl err →
     status (Proc.final (loadStatus w st)) = status st ∧
     fetching_shown (Proc.final (loadStatus w st)) = fetching_shown st ∧
     shown_error (Proc.final (loadStatus w st))
       = Some (or_literal (message err) "Failed to load LLM status") ∧
     shown_success (Proc.final (loadStatus w st)) = None).
Proof.
  destruct (api_getStatus w) as [err|data] eqn:Hget.
  - rewrite (loadStatus_rejects w st err Hget).
    split_and!; try done. intros err' [= <-].
    split_and!; try done. unfold shown_error. simpl.
    assert (H : truthy_string
                  (or_literal (message err) "Failed to load LLM status") = true)
      by by apply or_literal_truthy.
    by rewrite H.
  - rewrite (loadStatus_resolves w st data Hget).
    split_and!; try done. by intros data' [= <-].
Qed.

Lemma handleInitialize_rejects w st err :
  api_initialize w = inl err →
  handleInitialize w st
  = (Normal tt,
     {| status := status st;
        requestState :=
          failed_with (or_literal (message err) "Failed to initialize LLM") |},
     [(EvInitialize, {| status := status st; requestState := initializing |})]).
Proof.
  intros H. unfold handleInitialize, Proc.try_catch, mbind, Proc.P_bind,
    Proc.bind, Proc.await. simpl. by rewrite H.
Qed.

Lemma handleInitialize_refreshed w st r data :
  api_initialize w = inr r → api_getStatus w = inr data →
  handleInitialize w st
  = (Normal tt,
     {| status := Some data;
        requestState := settled_with (Some (success_text r)) |},
     [(EvInitialize, {| status := status st; requestState := initializing |});
      (EvGetStatus,
       {| status := status st;
          requestState := refreshing (settled_with (Some (success_text r))) |})]).
Proof.
  intros Hi Hg. unfold handleInitialize, loadStatus, Proc.try_catch, mbind,
    Proc.P_bind, Proc.bind, Proc.await. simpl. by rewrite Hi, Hg.
Qed.

Lemma handleInitialize_refresh_fails w st r err :
  api_initialize w = inr r → api_getStatus w = inl err →
  handleInitialize w st
  = (Normal tt,
     {| status := status st;
        requestState :=
          failed_with (or_literal (message err) "Failed to load LLM status") |},
     [(EvInitialize, {| status := status st; requestState := initializing |});
      (EvGetStatus,
       {| status := status st;
          requestState := refreshing (settled_with (Some (success_text r))) |})]).
Proof.
  intros Hi Hg. unfold handleInitialize, loadStatus, Proc.try_catch, mbind,
    Proc.P_bind, Proc.bind, Proc.await. simpl. by rewrite Hi, Hg.
Qed.

(** X21. Initialization reports success only if the refresh after it
    succeeds too. When [initialize] rejects, no status request is sent,
    the status shown stays and the error is the rejection's message or
    "Failed to initialize LLM". When it resolves, the status is fetched
    next; if that resolves, the new status is shown with the server's
    message, or "LLM initialized successfully" when it sent none; if that
    rejects, the success message is dropped and the status-load error is
    shown alone, although the initialization went through. *)
Theorem initialize_outcomes w st :
  (∀ err, api_initialize w = inl err →
     Proc.events (handleInitialize w st) = [EvInitialize] ∧
     status (Proc.final (handleInitialize w st)) = status st ∧
     shown_error (Proc.final (handleInitialize w st))
       = Some (or_literal (message err) "Failed to initialize LLM") ∧
     shown_success (Proc.final (handleInitialize w st)) = None) ∧
  (∀ r data, api_initialize w = inr r → api_getStatus w = inr data →
     Proc.events (handleInitialize w st) = [EvInitialize; EvGetStatus] ∧
     status (Proc.final (handleInitialize w st)) = Some data ∧
     shown_error (Proc.final (handleInitialize w st)) = None ∧
     shown_success (Proc.final (handleInitialize w st)) = Some (success_text r)) ∧
  (∀ r err, api_initialize w = inr r → api_getStatus w = inl err →
     Proc.events (handleInitialize w st) = [EvInitialize; EvGetStatus] ∧
     status (Proc.final (handleInitialize w st)) = status st ∧
     shown_error (Proc.final (handleInitialize w st))
       = Some (or_literal (message err) "Failed to load LLM status") ∧
     shown_success (Proc.final (handleInitialize w st)) = None).
Proof.
  assert (Herr : ∀ s m (lit : string), truthy_string lit = true →
            shown_error {| status := s;
                           requestState := failed_with (or_literal m lit) |}
            = Some (or_literal m lit)).
  { intros s m lit Hlit. unfold shown_error. simpl.
    by rewrite (or_literal_truthy m lit Hlit). }
  split_and!.
  - intros err Hi. rewrite (handleInitialize_rejects w st err Hi).
    split_and!; try done. by apply Herr.
  - intros r data Hi Hg. rewrite (handleInitialize_refreshed w st r data Hi Hg).
    split_and!; try done. unfold shown_success, success_text. simpl.
    by rewrite (or_literal_truthy (init_message r)
                  "LLM initialized successfully" eq_refl).
  - intros r err Hi Hg.
    rewrite (handleInitialize_refresh_fails w st r err Hi Hg).
    split_and!; try done. by apply Herr.
Qed.

(** X22. The card is busy exactly while a call is out, and never shows
    two messages. In both handlers the two buttons are disabled at every
    request and enabled at the end, and at the end at most one of the
    error and the success message is shown, whatever was shown before. *)
Theorem card_busy_and_one_message w st :
  (∀ e s, (e, s) ∈ Proc.steps (loadStatus w st) → buttons_disabled s = true) ∧
  (∀ e s, (e, s) ∈ Proc.steps (handleInitialize w st) →
          buttons_disabled s = true) ∧
  buttons_disabled (Proc.final (loadStatus w st)) = false ∧
  buttons_disabled (Proc.final (handleInitialize w st)) = false ∧
  (shown_error (Proc.final (loadStatus w st)) = None ∨
   shown_success (Proc.final (loadStatus w st)) = None) ∧
  (shown_error (Proc.final (handleInitialize w st)) = None ∨
   shown_success (Proc.final (handleInitialize w st)) = None).
Proof.
  assert (Hone : ∀ s m, shown_success
                   {| status := s; requestState := failed_with m |} = None)
    by done.
  assert (Htwo : ∀ s m, shown_error
                   {| status := s; requestState := settled_with m |} = None)
    by done.
  destruct (api_getStatus w) as [gerr|data] eqn:Hg;
    destruct (api_initialize w) as [ierr|r] eqn:Hi;
    rewrite ?(loadStatus_rejects w st gerr Hg),
            ?(loadStatus_resolves w st data Hg),
            ?(handleInitialize_rejects w st ierr Hi),
            ?(handleInitialize_refreshed w st r data Hi Hg),
            ?(handleInitialize_refresh_fails w st r gerr Hi Hg);
    unfold Proc.steps, Proc.final; simpl;
    (split_and!; [ | | done | done | auto | auto ]);
    intros e s Hin;
    repeat (apply elem_of_cons in Hin as [[= -> ->]|Hin]; [done|]);
    by apply elem_of_nil in Hin.
Qed.

End Card.
